(** * The enhanced EGD-CXR sampler (src/sampling_data/sampling_egd_cxr_enhanced.py)

    A shallow embedding of [EnhancedEGDCXRSampler]: the completeness
    validator, the stratified sampler, the chunked subset extraction, the
    metadata generator and the top-level run, followed by the properties of
    the sampler that the specification states. *)

From stdpp Require Import gmap strings list.
From Stdlib Require Import ZArith.
From Stdlib Require QArith_base.

Open Scope string_scope.
Open Scope list_scope.
Open Scope Z_scope.

(** ** Data model *)

(** One row of the master sheet.  The code reads the columns [dicom_id],
    [gender] and [anchor_age] without checking that they exist, so they are
    fields of the row; the clinical-finding columns are looked up by name
    after a [condition in df.columns] test, so they live in a finite map.
    A column missing from that map is a NaN cell. *)
Record study := {
  dicom_id : string;
  gender : string;
  anchor_age : string;
  findings : gmap string Z
}.

(** A pandas DataFrame of studies: header and rows. *)
Record DataFrame := {
  df_columns : list string;
  df_rows : list study
}.

(** One row of eye_gaze.csv or fixations.csv: the [DICOM_ID] column and the
    remaining (numeric) columns. *)
Record gaze_row := {
  DICOM_ID : string;
  gaze_fields : list Z
}.

(** One row of bounding_boxes.csv. *)
Record bbox_row := {
  bbox_dicom_id : string;
  bbox_name : string;
  bbox_coords : list Z
}.

(** What [os.path.exists] and [pd.read_csv] can find at a path. *)
Inductive file (A : Type) :=
  | Absent
  | Unreadable
  | Readable (content : A).
Arguments Absent {A}.
Arguments Unreadable {A}.
Arguments Readable {A} content.

(** The raw dataset directory [self.raw_path]. *)
Record RawData := {
  raw_path : string;
  master_sheet_csv : file DataFrame;
  audio_segmentation_transcripts : option (gset string);
  eye_gaze_csv : file (list gaze_row);
  fixations_csv : file (list gaze_row);
  bounding_boxes_csv : file (list bbox_row)
}.

(** The part of the metadata document that is computed from the sample. *)
Record study_detail := {
  sd_dicom_id : string;
  sd_gender : string;
  sd_age : string;
  sd_conditions : list string;
  sd_condition_count : Z
}.

Record Metadata := {
  total_studies : nat;
  gender_distribution : gmap string nat;
  age_distribution : gmap string nat;
  clinical_conditions : list (string * Z);
  studies_with_single_condition : nat;
  studies_with_multiple_conditions : nat;
  complexity_distribution : gmap Z nat;
  md_audio_transcripts : nat;
  md_gaze_records : nat;
  md_fixation_records : nat;
  md_bounding_box_records : nat;
  completeness_rate : QArith_base.Q;
  sampled_studies : list string;
  study_details : list study_detail
}.

(** The output directory [self.output_path]: one slot per file the run
    writes. *)
Record OutDir := {
  master_sheet_sample : option DataFrame;
  audio_copied : gset string;
  eye_gaze_sample : option (list gaze_row);
  fixations_sample : option (list gaze_row);
  bounding_boxes_sample : option (list bbox_row);
  comprehensive_sample_metadata : option Metadata;
  detailed_sampling_summary : bool
}.

Definition empty_out : OutDir :=
  {| master_sheet_sample := None; audio_copied := ∅;
     eye_gaze_sample := None; fixations_sample := None;
     bounding_boxes_sample := None;
     comprehensive_sample_metadata := None;
     detailed_sampling_summary := false |}.

(** Python exceptions the sampler can raise. *)
Inductive exn :=
  | FileNotFoundError (msg : string)
  | ParserError
  | ValueError (msg : string)
  | UnboundLocalError (var : string)
  | ZeroDivisionError.

Inductive result (A : Type) :=
  | Ok (a : A)
  | Raise (e : exn).
Arguments Ok {A} a.
Arguments Raise {A} e.

(** [self.primary_conditions] and [self.secondary_conditions]. *)
Definition primary_conditions : list string :=
  ["Normal"; "CHF"; "pneumonia"].
Definition secondary_conditions : list string :=
  ["consolidation"; "enlarged_cardiac_silhouette";
   "pleural_effusion_or_thickening"; "pulmonary_edema__hazy_opacity"].

(** [os.path.join a b] for a relative second component. *)
Fixpoint ends_with_slash (a : string) : bool :=
  match a with
  | EmptyString => false
  | String c EmptyString => bool_decide (a = "/")
  | String _ rest => ends_with_slash rest
  end.

Definition os_path_join (a b : string) : string :=
  if bool_decide (a = "") then b
  else if ends_with_slash a then (a ++ b)%string
  else (a ++ "/" ++ b)%string.

(** ** pandas primitives that do not draw random numbers *)

Definition df_len (df : DataFrame) : Z := Z.of_nat (length (df_rows df)).

(** [df['dicom_id'].tolist()] *)
Definition ids (df : DataFrame) : list string := dicom_id <$> df_rows df.

(** [df[mask]] for a row-wise boolean mask. *)
Definition df_filter (P : study → Prop) `{!∀ r, Decision (P r)}
    (df : DataFrame) : DataFrame :=
  {| df_columns := df_columns df; df_rows := filter P (df_rows df) |}.

(** [df[col] == 1]: false on a NaN cell. *)
Definition positive (col : string) (r : study) : Prop :=
  findings r !! col = Some 1.

#[global] Instance positive_dec col r : Decision (positive col r).
Proof. unfold positive. apply _. Defined.

(** [df[cols].sum(axis=1)] for one row; NaN cells are skipped. *)
Definition row_sum (cols : list string) (r : study) : Z :=
  foldr (λ c acc, default 0 (findings r !! c) + acc) 0 cols.

(** [df[col].sum()]. *)
Definition col_sum (col : string) (df : DataFrame) : Z :=
  foldr (λ r acc, default 0 (findings r !! col) + acc) 0 (df_rows df).

(** [df[col] = f(row)]: overwrite or append a numeric column. *)
Definition set_cell (col : string) (v : Z) (r : study) : study :=
  {| dicom_id := dicom_id r; gender := gender r; anchor_age := anchor_age r;
     findings := <[col := v]> (findings r) |}.

Definition df_assign (col : string) (f : study → Z) (df : DataFrame)
    : DataFrame :=
  {| df_columns :=
       if bool_decide (col ∈ df_columns df) then df_columns df
       else df_columns df ++ [col];
     df_rows := (λ r, set_cell col (f r) r) <$> df_rows df |}.

(** [pd.concat(frames, ignore_index=True)]: rows in order, header the union
    of the headers in order of first appearance. *)
Definition pd_concat (frames : list DataFrame) : DataFrame :=
  {| df_columns := remove_dups (concat (df_columns <$> frames));
     df_rows := concat (df_rows <$> frames) |}.

(** [series.value_counts().to_dict()]. *)
Definition value_counts `{Countable K} (l : list K) : gmap K nat :=
  foldr (λ k m, <[k := S (default 0%nat (m !! k))]> m) ∅ l.

(** ** Completeness validator (lines 65-109) *)

(** The quick check of one table: the file has to exist, [read_csv] of its
    first 1000 rows has to succeed (a failure is swallowed by the bare
    [except]), and the identifier has to occur in that prefix. *)
Definition quick_check (f : file (list gaze_row)) (id : string) : bool :=
  match f with
  | Absent => false
  | Unreadable => false
  | Readable rows =>
      bool_decide (id ∈ DICOM_ID <$> take 1000 rows)
  end.

Definition available_audio (raw : RawData) : gset string :=
  default ∅ (audio_segmentation_transcripts raw).

Fixpoint validate_data_completeness (raw : RawData) (dicom_ids : list string)
    : list string :=
  match dicom_ids with
  | [] => []
  | id :: rest =>
      if bool_decide (id ∉ available_audio raw) then
        validate_data_completeness raw rest
      else
        let has_gaze := quick_check (eye_gaze_csv raw) id in
        let has_fixations := quick_check (fixations_csv raw) id in
        if has_gaze && has_fixations then
          id :: validate_data_completeness raw rest
        else validate_data_completeness raw rest
  end.

(** ** Chunked reading *)

(** The chunks [pd.read_csv(path, chunksize=size)] yields for a readable
    table; the recursion is on a counter that starts at the row count. *)
Fixpoint chunks_from {A} (fuel size : nat) (rows : list A) : list (list A) :=
  match fuel with
  | O => []
  | S fuel' =>
      match rows with
      | [] => []
      | _ => take size rows :: chunks_from fuel' size (drop size rows)
      end
  end.

Definition read_chunks {A} (size : nat) (rows : list A) : list (list A) :=
  chunks_from (length rows) size rows.

(** ** The program monad *)

Section Sampler.

(** numpy's legacy generator is taken as given: [seeded s] is
    [np.random.RandomState(s)], and [permutation g n] is the result of
    [g.permutation(n)] together with the generator after the call. *)
Variable RandomState : Type.
Variable seeded : Z → RandomState.
Variable permutation : RandomState → nat → list nat * RandomState.

(** What a run can change: the process-wide generator [np.random] and the
    output directory. *)
Record World := {
  np_random : RandomState;
  output_dir : OutDir
}.

Definition Py (A : Type) : Type := World → result A * World.

Definition ret {A} (a : A) : Py A := λ w, (Ok a, w).

Definition raise {A} (e : exn) : Py A := λ w, (Raise e, w).

Definition bind {A B} (m : Py A) (k : A → Py B) : Py B :=
  λ w, match m w with
       | (Ok a, w') => k a w'
       | (Raise e, w') => (Raise e, w')
       end.

Notation "x <~ m ;; k" := (bind m (λ x, k))
  (at level 100, m at next level, right associativity,
   format "'[v' x  <~  m  ;;  '/' k ']'").

(** [for x in l: st = body(st, x)]. *)
Fixpoint for_each {A S} (body : S → A → Py S) (l : list A) (st : S) : Py S :=
  match l with
  | [] => ret st
  | x :: l' => st' <~ body st x ;; for_each body l' st'
  end.

Definition write_out (f : OutDir → OutDir) : Py unit :=
  λ w, (Ok tt, {| np_random := np_random w; output_dir := f (output_dir w) |}).

(** ** [DataFrame.sample(n=n, random_state=random_state)] *)

(** [DataFrame.take]: the rows at the given positions, in that order.  A
    position outside the frame, which pandas rejects, selects no row; the
    positions of a permutation are all inside. *)
Definition take_rows (rows : list study) (idx : list nat) : list study :=
  omap (λ i, rows !! i) idx.

Definition draw (g : RandomState) (df : DataFrame) (n : Z) : DataFrame :=
  {| df_columns := df_columns df;
     df_rows :=
       take_rows (df_rows df)
         (take (Z.to_nat n) (permutation g (length (df_rows df))).1) |}.

(** Without replacement: the first [n] entries of a permutation of the row
    positions.  An integer [random_state] builds a fresh generator from that
    seed; [None] would draw from, and advance, the process-wide one. *)
Definition df_sample (df : DataFrame) (n : Z) (random_state : option Z)
    : Py DataFrame :=
  if n <? 0 then
    raise (ValueError "A negative number of rows requested.")
  else if df_len df <? n then
    raise (ValueError "Cannot take a larger sample than population")
  else
    match random_state with
    | Some s => ret (draw (seeded s) df n)
    | None =>
        λ w, (Ok (draw (np_random w) df n),
              {| np_random :=
                   (permutation (np_random w) (length (df_rows df))).2;
                 output_dir := output_dir w |})
    end.

(** ** Stratified sampler (lines 111-192) *)

(** The loop state: [samples] and [used_ids]. *)
Definition sampler_state : Type := list DataFrame * gset string.

Definition unused (used_ids : gset string) (r : study) : Prop :=
  dicom_id r ∉ used_ids.

#[global] Instance unused_dec used_ids r : Decision (unused used_ids r).
Proof. unfold unused. apply _. Defined.

(** [samples.append(s); used_ids.update(s['dicom_id'].tolist())] *)
Definition record_sample (st : sampler_state) (s : DataFrame) : sampler_state :=
  (st.1 ++ [s], st.2 ∪ list_to_set (ids s)).

(** The body shared by the loop over the primary conditions (lines 127-137,
    quota 8) and the loop over the secondary conditions (lines 158-168,
    quota 3). *)
Definition sample_condition (quota : Z) (df_complete : DataFrame)
    (st : sampler_state) (condition : string) : Py sampler_state :=
  if bool_decide (condition ∈ df_columns df_complete) then
    let condition_data := df_filter (positive condition) df_complete in
    let condition_data := df_filter (unused st.2) condition_data in
    if 0 <? df_len condition_data then
      let n_sample := Z.min quota (df_len condition_data) in
      condition_sample <~ df_sample condition_data n_sample (Some 42) ;;
      ret (record_sample st condition_sample)
    else ret st
  else ret st.

(** [df['complexity'] >= 2]: false on a NaN cell. *)
Definition complex (r : study) : Prop :=
  match findings r !! "complexity" with
  | Some c => 2 ≤ c
  | None => False
  end.

#[global] Instance complex_dec r : Decision (complex r).
Proof. unfold complex. destruct (findings r !! "complexity"); apply _. Defined.

(** Lines 139-154. *)
Definition sample_complex (df_complete : DataFrame) (st : sampler_state)
    : Py sampler_state :=
  let multi_condition_data := df_filter (unused st.2) df_complete in
  if 0 <? df_len multi_condition_data then
    let condition_cols := primary_conditions ++ secondary_conditions in
    let available_cols :=
      filter (λ col, col ∈ df_columns multi_condition_data) condition_cols in
    let multi_condition_data :=
      df_assign "complexity" (row_sum available_cols) multi_condition_data in
    let complex_cases := df_filter complex multi_condition_data in
    if 0 <? df_len complex_cases then
      let n_complex := Z.min 8 (df_len complex_cases) in
      complex_sample <~ df_sample complex_cases n_complex (Some 42) ;;
      ret (record_sample st complex_sample)
    else ret st
  else ret st.

(** [sum(len(s) for s in samples)] *)
Definition total_len (samples : list DataFrame) : Z :=
  foldr (λ s acc, df_len s + acc) 0 samples.

(** Lines 170-179. *)
Definition fill_remaining (df_complete : DataFrame) (n_samples : Z)
    (st : sampler_state) : Py sampler_state :=
  let remaining := n_samples - total_len st.1 in
  if 0 <? remaining then
    let remaining_data := df_filter (unused st.2) df_complete in
    if 0 <? df_len remaining_data then
      remaining_sample <~
        df_sample remaining_data (Z.min remaining (df_len remaining_data))
          (Some 42) ;;
      ret (record_sample st remaining_sample)
    else ret st
  else ret st.

(** Lines 181-189. *)
Definition combine_samples (df_complete : DataFrame) (n_samples : Z)
    (samples : list DataFrame) : Py DataFrame :=
  final_sample <~
    match samples with
    | _ :: _ => ret (pd_concat samples)
    | [] =>
        df_sample df_complete (Z.min n_samples (df_len df_complete)) (Some 42)
    end ;;
  if n_samples <? df_len final_sample then
    df_sample final_sample n_samples (Some 42)
  else ret final_sample.

Definition complete_frame (raw : RawData) (df : DataFrame) : DataFrame :=
  let all_dicom_ids := ids df in
  let complete_studies := validate_data_completeness raw all_dicom_ids in
  df_filter (λ r, dicom_id r ∈ complete_studies) df.

Definition create_diverse_sample (raw : RawData) (df : DataFrame)
    (n_samples : Z) : Py DataFrame :=
  let df_complete := complete_frame raw df in
  st <~ for_each (sample_condition 8 df_complete) primary_conditions ([], ∅) ;;
  st <~ sample_complex df_complete st ;;
  st <~ for_each (sample_condition 3 df_complete) secondary_conditions st ;;
  st <~ fill_remaining df_complete n_samples st ;;
  combine_samples df_complete n_samples st.1.

(** ** Subset extraction (lines 194-287) *)

(** Lines 194-216.  A per-case directory exists exactly when its name is in
    the listing of the transcripts directory. *)
Definition copy_audio_transcripts (raw : RawData) (sample_df : DataFrame)
    : Py nat :=
  for_each
    (λ copied_count dicom_id,
       if bool_decide (dicom_id ∈ available_audio raw) then
         _ <~ write_out (λ o,
                {| master_sheet_sample := master_sheet_sample o;
                   audio_copied := audio_copied o ∪ {[dicom_id]};
                   eye_gaze_sample := eye_gaze_sample o;
                   fixations_sample := fixations_sample o;
                   bounding_boxes_sample := bounding_boxes_sample o;
                   comprehensive_sample_metadata :=
                     comprehensive_sample_metadata o;
                   detailed_sampling_summary := detailed_sampling_summary o |}) ;;
         ret (S copied_count)
       else ret copied_count)
    (ids sample_df) 0%nat.

Definition selected (sample_dicom_ids : gset string) (r : gaze_row) : Prop :=
  DICOM_ID r ∈ sample_dicom_ids.

#[global] Instance selected_dec s r : Decision (selected s r).
Proof. unfold selected. apply _. Defined.

(** The loop over the chunks (lines 236-239 and 253-256): a filtered chunk
    is kept when it has at least one row. *)
Definition filter_chunks (sample_dicom_ids : gset string)
    (chunks : list (list gaze_row)) : list (list gaze_row) :=
  foldl
    (λ kept chunk,
       let chunk_filtered := filter (selected sample_dicom_ids) chunk in
       if (0 <? length chunk_filtered)%nat then kept ++ [chunk_filtered]
       else kept)
    [] chunks.

Definition write_gaze (rows : list gaze_row) : Py unit :=
  write_out (λ o,
    {| master_sheet_sample := master_sheet_sample o;
       audio_copied := audio_copied o;
       eye_gaze_sample := Some rows;
       fixations_sample := fixations_sample o;
       bounding_boxes_sample := bounding_boxes_sample o;
       comprehensive_sample_metadata := comprehensive_sample_metadata o;
       detailed_sampling_summary := detailed_sampling_summary o |}).

Definition write_fixations (rows : list gaze_row) : Py unit :=
  write_out (λ o,
    {| master_sheet_sample := master_sheet_sample o;
       audio_copied := audio_copied o;
       eye_gaze_sample := eye_gaze_sample o;
       fixations_sample := Some rows;
       bounding_boxes_sample := bounding_boxes_sample o;
       comprehensive_sample_metadata := comprehensive_sample_metadata o;
       detailed_sampling_summary := detailed_sampling_summary o |}).

(** Lines 218-265.  [chunk_size] is assigned only inside the branch for the
    gaze file, so it is an optional value when the fixations branch reads
    it. *)
Definition sample_gaze_data (raw : RawData) (sample_df : DataFrame)
    : Py (nat * nat) :=
  let sample_dicom_ids : gset string := list_to_set (ids sample_df) in
  gz <~
    match eye_gaze_csv raw with
    | Absent => ret (0%nat, None)
    | Unreadable => raise ParserError
    | Readable rows =>
        let chunk_size := Z.to_nat 10000 in
        let gaze_chunks :=
          filter_chunks sample_dicom_ids (read_chunks chunk_size rows) in
        match gaze_chunks with
        | _ :: _ =>
            let gaze_sample := concat gaze_chunks in
            _ <~ write_gaze gaze_sample ;;
            ret (length gaze_sample, Some chunk_size)
        | [] => ret (0%nat, Some chunk_size)
        end
    end ;;
  let gaze_records : nat := gz.1 in
  fixation_records <~
    match fixations_csv raw with
    | Absent => ret 0%nat
    | present =>
        match gz.2 with
        | None => raise (UnboundLocalError "chunk_size")
        | Some chunk_size =>
            match present with
            | Readable rows =>
                let fixations_chunks :=
                  filter_chunks sample_dicom_ids
                    (read_chunks chunk_size rows) in
                match fixations_chunks with
                | _ :: _ =>
                    let fixations_sample := concat fixations_chunks in
                    _ <~ write_fixations fixations_sample ;;
                    ret (length fixations_sample)
                | [] => ret 0%nat
                end
            | _ => raise ParserError
            end
        end
    end ;;
  ret (gaze_records, fixation_records).

(** Lines 267-287. *)
Definition sample_bounding_boxes (raw : RawData) (sample_df : DataFrame)
    : Py nat :=
  match bounding_boxes_csv raw with
  | Absent => ret 0%nat
  | Unreadable => raise ParserError
  | Readable bbox_df =>
      let sample_dicom_ids : gset string := list_to_set (ids sample_df) in
      let bbox_sample :=
        filter (λ r, bbox_dicom_id r ∈ sample_dicom_ids) bbox_df in
      _ <~ write_out (λ o,
             {| master_sheet_sample := master_sheet_sample o;
                audio_copied := audio_copied o;
                eye_gaze_sample := eye_gaze_sample o;
                fixations_sample := fixations_sample o;
                bounding_boxes_sample := Some bbox_sample;
                comprehensive_sample_metadata :=
                  comprehensive_sample_metadata o;
                detailed_sampling_summary := detailed_sampling_summary o |}) ;;
      ret (length bbox_sample)
  end.

(** ** Metadata and report (lines 289-407) *)

(** The value of [audio_count/len(sample_df)*100], before it is formatted. *)
Definition rate (audio_count len : nat) : Py QArith_base.Q :=
  match len with
  | O => raise ZeroDivisionError
  | S _ =>
      ret (QArith_base.Qmake (Z.of_nat audio_count * 100) (Pos.of_nat len))
  end.

Definition condition_count (r : study) : Z :=
  default 0 (findings r !! "condition_count").

(** Lines 289-352.  The dictionary literal is evaluated entry by entry, so
    the completeness rate is computed before anything is written; the
    timestamp of the document is left out.  The frame is returned as well
    because the caller's frame gets the [condition_count] column. *)
Definition create_comprehensive_metadata (sample_df : DataFrame)
    (gaze_records fixation_records bbox_records audio_count : nat)
    : Py (Metadata * DataFrame) :=
  let all_conditions := primary_conditions ++ secondary_conditions in
  let condition_stats :=
    (λ c, (c, col_sum c sample_df)) <$>
      filter (λ c, c ∈ df_columns sample_df) all_conditions in
  let available_condition_cols :=
    filter (λ c, c ∈ df_columns sample_df) all_conditions in
  let sample_df :=
    df_assign "condition_count" (row_sum available_condition_cols) sample_df in
  let complexity_dist := value_counts (condition_count <$> df_rows sample_df) in
  let n := length (df_rows sample_df) in
  r <~ rate audio_count n ;;
  let metadata :=
    {| total_studies := n;
       gender_distribution := value_counts (gender <$> df_rows sample_df);
       age_distribution := value_counts (anchor_age <$> df_rows sample_df);
       clinical_conditions := condition_stats;
       studies_with_single_condition := default 0%nat (complexity_dist !! 1);
       studies_with_multiple_conditions :=
         map_fold (λ k v acc, if 1 <? k then (v + acc)%nat else acc) 0%nat
           complexity_dist;
       complexity_distribution := complexity_dist;
       md_audio_transcripts := audio_count;
       md_gaze_records := gaze_records;
       md_fixation_records := fixation_records;
       md_bounding_box_records := bbox_records;
       completeness_rate := r;
       sampled_studies := ids sample_df;
       study_details :=
         (λ row,
            {| sd_dicom_id := dicom_id row;
               sd_gender := gender row;
               sd_age := anchor_age row;
               sd_conditions :=
                 filter (λ cond, cond ∈ df_columns sample_df ∧ positive cond row)
                   all_conditions;
               sd_condition_count := condition_count row |})
           <$> df_rows sample_df |} in
  _ <~ write_out (λ o,
         {| master_sheet_sample := master_sheet_sample o;
            audio_copied := audio_copied o;
            eye_gaze_sample := eye_gaze_sample o;
            fixations_sample := fixations_sample o;
            bounding_boxes_sample := bounding_boxes_sample o;
            comprehensive_sample_metadata := Some metadata;
            detailed_sampling_summary := detailed_sampling_summary o |}) ;;
  ret (metadata, sample_df).

(** Lines 354-407: the report is a rendering of the metadata; only the
    fact that the file is written is kept. *)
Definition create_detailed_summary_report (sample_df : DataFrame)
    (metadata : Metadata) : Py unit :=
  write_out (λ o,
    {| master_sheet_sample := master_sheet_sample o;
       audio_copied := audio_copied o;
       eye_gaze_sample := eye_gaze_sample o;
       fixations_sample := fixations_sample o;
       bounding_boxes_sample := bounding_boxes_sample o;
       comprehensive_sample_metadata := comprehensive_sample_metadata o;
       detailed_sampling_summary := true |}).

(** ** The run (lines 55-63 and 409-449) *)

Definition master_file (raw : RawData) : string :=
  os_path_join (raw_path raw) "master_sheet.csv".

Definition load_master_sheet (raw : RawData) : Py DataFrame :=
  match master_sheet_csv raw with
  | Absent =>
      raise (FileNotFoundError
               ("Master sheet not found: " ++ master_file raw)%string)
  | Unreadable => raise ParserError
  | Readable df => ret df
  end.

(** [self.sample_size] *)
Definition sample_size : Z := 50.

(** The [except] clause of the run logs the exception and raises it again,
    so the run is the sequence of its steps. *)
Definition run_enhanced_sampling (raw : RawData) : Py (DataFrame * Metadata) :=
  master_df <~ load_master_sheet raw ;;
  sample_df <~ create_diverse_sample raw master_df sample_size ;;
  _ <~ write_out (λ o,
         {| master_sheet_sample := Some sample_df;
            audio_copied := audio_copied o;
            eye_gaze_sample := eye_gaze_sample o;
            fixations_sample := fixations_sample o;
            bounding_boxes_sample := bounding_boxes_sample o;
            comprehensive_sample_metadata := comprehensive_sample_metadata o;
            detailed_sampling_summary := detailed_sampling_summary o |}) ;;
  audio_count <~ copy_audio_transcripts raw sample_df ;;
  records <~ sample_gaze_data raw sample_df ;;
  bbox_records <~ sample_bounding_boxes raw sample_df ;;
  md <~ create_comprehensive_metadata sample_df records.1 records.2
          bbox_records audio_count ;;
  _ <~ create_detailed_summary_report md.2 md.1 ;;
  ret (md.2, md.1).

(** ** Vocabulary of the statements *)

(** [m] returns [a] whatever the world is, and leaves the world alone. *)
Definition yields {A} (m : Py A) (P : A → Prop) : Prop :=
  ∃ a, (∀ w, m w = (Ok a, w)) ∧ P a.

(** The outcome of [m], a value or an exception, does not depend on the
    world, and [m] leaves the world alone. *)
Definition steady {A} (m : Py A) : Prop :=
  ∃ r, ∀ w, m w = (r, w).

(** [g.permutation(n)] is a permutation of [0, ..., n-1]. *)
Definition perm_ok : Prop :=
  ∀ g n, (permutation g n).1 ≡ₚ seq 0 n.

(** The rows drawn so far. *)
Definition picked (st : sampler_state) : list study :=
  concat (df_rows <$> st.1).

(** [r] is the row [r0] of the case index, possibly with a [complexity]
    cell added by the complex-case step. *)
Definition same_case (r0 r : study) : Prop :=
  dicom_id r = dicom_id r0 ∧
  ∀ c, c ≠ "complexity" → findings r !! c = findings r0 !! c.

Definition from_frame (D : DataFrame) (r : study) : Prop :=
  ∃ r0, r0 ∈ df_rows D ∧ same_case r0 r.

(** What the loops of the sampler maintain about [samples] and [used_ids]
    with respect to the validated frame [D]. *)
Record sampler_inv (D : DataFrame) (st : sampler_state) : Prop := {
  inv_used : ∀ x, x ∈ st.2 ↔ x ∈ dicom_id <$> picked st;
  inv_from : ∀ r, r ∈ picked st → from_frame D r;
  inv_nodup : perm_ok → NoDup (ids D) → NoDup (dicom_id <$> picked st)
}.

(** The identifiers that passed completeness validation. *)
Definition validated (raw : RawData) (df : DataFrame) : list string :=
  validate_data_completeness raw (ids df).

(** The frames the three kinds of quota step draw from, and the states
    they lead to; used to state what each step returns. *)
Definition condition_frame (D : DataFrame) (used_ids : gset string)
    (c : string) : DataFrame :=
  df_filter (unused used_ids) (df_filter (positive c) D).

Definition condition_next (quota : Z) (D : DataFrame) (st : sampler_state)
    (c : string) : sampler_state :=
  let F := condition_frame D st.2 c in
  if bool_decide (c ∈ df_columns D) && (0 <? df_len F) then
    record_sample st (draw (seeded 42) F (Z.min quota (df_len F)))
  else st.

Definition complex_frame (D : DataFrame) (used_ids : gset string)
    : DataFrame :=
  let M := df_filter (unused used_ids) D in
  df_filter complex
    (df_assign "complexity"
       (row_sum (filter (λ col, col ∈ df_columns M)
                   (primary_conditions ++ secondary_conditions))) M).

Definition complex_next (D : DataFrame) (st : sampler_state) : sampler_state :=
  let F := complex_frame D st.2 in
  if 0 <? df_len F then
    record_sample st (draw (seeded 42) F (Z.min 8 (df_len F)))
  else st.

Definition fill_next (D : DataFrame) (n_samples : Z) (st : sampler_state)
    : sampler_state :=
  let remaining := n_samples - total_len st.1 in
  let F := df_filter (unused st.2) D in
  if (0 <? remaining) && (0 <? df_len F) then
    record_sample st (draw (seeded 42) F (Z.min remaining (df_len F)))
  else st.

(** Number of rows positive for a condition. *)
Definition count_positive (c : string) (rows : list study) : nat :=
  length (filter (positive c) rows).

(** The state after the three quota steps, and the frame that
    [combine_samples] returns for a non-negative target. *)
Definition quota_state (D : DataFrame) : sampler_state :=
  foldl (condition_next 3 D)
    (complex_next D (foldl (condition_next 8 D) ([], ∅) primary_conditions))
    secondary_conditions.

Definition combine_next (D : DataFrame) (n_samples : Z)
    (samples : list DataFrame) : DataFrame :=
  let final_sample :=
    match samples with
    | _ :: _ => pd_concat samples
    | [] => draw (seeded 42) D (Z.min n_samples (df_len D))
    end in
  if n_samples <? df_len final_sample then
    draw (seeded 42) final_sample n_samples
  else final_sample.

Definition selection (D : DataFrame) (n_samples : Z) : DataFrame :=
  combine_next D n_samples (fill_next D n_samples (quota_state D)).1.

(** The test the validator applies to one identifier. *)
Definition is_complete (raw : RawData) (id : string) : Prop :=
  id ∈ available_audio raw ∧
  quick_check (eye_gaze_csv raw) id = true ∧
  quick_check (fixations_csv raw) id = true.

#[global] Instance is_complete_dec raw id : Decision (is_complete raw id).
Proof. unfold is_complete. apply _. Defined.

(** The content of an output table after an extraction that found [rows]:
    the file is written only when there is at least one row. *)
Definition put_rows {A} (rows : list A) (old : option (list A))
    : option (list A) :=
  match rows with
  | [] => old
  | _ :: _ => Some rows
  end.

(** The rows of a case in a gaze or fixation table, in table order. *)
Definition case_rows (c : string) (rows : list gaze_row) : list gaze_row :=
  filter (λ r, DICOM_ID r = c) rows.

(** ** Example data *)

(** A study with the given identifier and finding cells. *)
Definition mk_study (id : string) (cells : list (string * Z)) : study :=
  {| dicom_id := id; gender := "F"; anchor_age := "50-60";
     findings := list_to_map cells |}.

Definition mk_gaze (id : string) : gaze_row :=
  {| DICOM_ID := id; gaze_fields := [] |}.

(** Both tables hold 1000 rows of the case [early] followed by one row of
    the case [late]; both cases have a transcript directory. *)
Definition late_table : list gaze_row :=
  replicate 1000 (mk_gaze "early") ++ [mk_gaze "late"].

Definition late_raw : RawData :=
  {| raw_path := "/data/egd-cxr";
     master_sheet_csv :=
       Readable {| df_columns := ["dicom_id"; "gender"; "anchor_age"; "Normal"];
                   df_rows := [mk_study "early" [("Normal", 1)];
                               mk_study "late" [("Normal", 1)]] |};
     audio_segmentation_transcripts := Some {["early"; "late"]};
     eye_gaze_csv := Readable late_table;
     fixations_csv := Readable late_table;
     bounding_boxes_csv := Readable [] |}.

(** A generator for the examples: its state is a counter, its permutation
    of [0..n-1] is the identity rotated by the counter. *)
Definition rot_seeded (s : Z) : nat := Z.to_nat s.

Definition rot_permutation (g n : nat) : list nat * nat :=
  (rotate g (seq 0 n), S g).

(** Ten cases positive for [Normal] only, all with transcripts, gaze rows
    and fixation rows. *)
Definition normal_ids : list string :=
  ["n0"; "n1"; "n2"; "n3"; "n4"; "n5"; "n6"; "n7"; "n8"; "n9"].

Definition normal_df : DataFrame :=
  {| df_columns :=
       ["dicom_id"; "gender"; "anchor_age"; "Normal"; "CHF"; "pneumonia"];
     df_rows :=
       (λ id, mk_study id [("Normal", 1); ("CHF", 0); ("pneumonia", 0)])
         <$> normal_ids |}.

Definition normal_raw : RawData :=
  {| raw_path := "/data/egd-cxr";
     master_sheet_csv := Readable normal_df;
     audio_segmentation_transcripts := Some (list_to_set normal_ids);
     eye_gaze_csv := Readable (mk_gaze <$> normal_ids);
     fixations_csv := Readable (mk_gaze <$> normal_ids);
     bounding_boxes_csv := Readable [] |}.

(** The same dataset without bounding_boxes.csv. *)
Definition no_boxes_raw : RawData :=
  {| raw_path := "/data/egd-cxr";
     master_sheet_csv := Readable normal_df;
     audio_segmentation_transcripts := Some (list_to_set normal_ids);
     eye_gaze_csv := Readable (mk_gaze <$> normal_ids);
     fixations_csv := Readable (mk_gaze <$> normal_ids);
     bounding_boxes_csv := Absent |}.

(** The same dataset without the transcripts directory. *)
Definition silent_raw : RawData :=
  {| raw_path := "/data/egd-cxr";
     master_sheet_csv := Readable normal_df;
     audio_segmentation_transcripts := None;
     eye_gaze_csv := Readable (mk_gaze <$> normal_ids);
     fixations_csv := Readable (mk_gaze <$> normal_ids);
     bounding_boxes_csv := Readable [] |}.

(** A dataset directory that holds eye_gaze.csv and nothing else. *)
Definition gaze_only_raw : RawData :=
  {| raw_path := "/data/egd-cxr";
     master_sheet_csv := Absent;
     audio_segmentation_transcripts := None;
     eye_gaze_csv := Readable (mk_gaze <$> normal_ids);
     fixations_csv := Absent;
     bounding_boxes_csv := Absent |}.

(** A sample that selects the case [late] only. *)
Definition late_sample : DataFrame :=
  {| df_columns := ["dicom_id"; "gender"; "anchor_age"; "Normal"];
     df_rows := [mk_study "late" [("Normal", 1)]] |}.

(** ** Vocabulary of the further properties *)

(** Where a row of a sample comes from: it is a row of the frame, or a row
    of the frame to which the complex-case step has added its [complexity]
    cell, the sum of the condition columns of the frame. *)
Definition origin (D : DataFrame) (r : study) : Prop :=
  r ∈ df_rows D ∨
  ∃ r0, r0 ∈ df_rows D ∧
        2 ≤ row_sum (filter (λ col, col ∈ df_columns D)
                       (primary_conditions ++ secondary_conditions)) r0 ∧
        r = set_cell "complexity"
              (row_sum (filter (λ col, col ∈ df_columns D)
                          (primary_conditions ++ secondary_conditions)) r0) r0.

(** The condition cells of the rows are 0, 1 or NaN. *)
Definition binary_flags (rows : list study) : Prop :=
  ∀ r c v, r ∈ rows → c ∈ primary_conditions ++ secondary_conditions →
           findings r !! c = Some v → v = 0 ∨ v = 1.


(** The identifiers of a sample that have a transcript directory. *)
Definition with_transcripts (raw : RawData) (sample_df : DataFrame)
    : list string :=
  filter (λ id, id ∈ available_audio raw) (ids sample_df).

(** An output directory left by an earlier run. *)
Definition stale_out : OutDir :=
  {| master_sheet_sample := None; audio_copied := {["old"]};
     eye_gaze_sample := Some [mk_gaze "old"];
     fixations_sample := Some [mk_gaze "old"];
     bounding_boxes_sample :=
       Some [{| bbox_dicom_id := "old"; bbox_name := "Heart";
                bbox_coords := [0; 0; 1; 1] |}];
     comprehensive_sample_metadata := None;
     detailed_sampling_summary := false |}.

(** A dataset whose eye_gaze.csv cannot be parsed. *)
Definition garbled_raw : RawData :=
  {| raw_path := "/data/egd-cxr";
     master_sheet_csv := Readable normal_df;
     audio_segmentation_transcripts := Some (list_to_set normal_ids);
     eye_gaze_csv := Unreadable;
     fixations_csv := Readable (mk_gaze <$> normal_ids);
     bounding_boxes_csv := Readable [] |}.

(** A dataset without eye_gaze.csv. *)
Definition no_gaze_raw : RawData :=
  {| raw_path := "/data/egd-cxr";
     master_sheet_csv := Readable normal_df;
     audio_segmentation_transcripts := Some (list_to_set normal_ids);
     eye_gaze_csv := Absent;
     fixations_csv := Readable (mk_gaze <$> normal_ids);
     bounding_boxes_csv := Readable [] |}.


(** The output directory after each kind of write. *)
Definition with_master (s : DataFrame) (o : OutDir) : OutDir :=
  {| master_sheet_sample := Some s;
     audio_copied := audio_copied o;
     eye_gaze_sample := eye_gaze_sample o;
     fixations_sample := fixations_sample o;
     bounding_boxes_sample := bounding_boxes_sample o;
     comprehensive_sample_metadata := comprehensive_sample_metadata o;
     detailed_sampling_summary := detailed_sampling_summary o |}.

Definition with_audio (copied : gset string) (o : OutDir) : OutDir :=
  {| master_sheet_sample := master_sheet_sample o;
     audio_copied := audio_copied o ∪ copied;
     eye_gaze_sample := eye_gaze_sample o;
     fixations_sample := fixations_sample o;
     bounding_boxes_sample := bounding_boxes_sample o;
     comprehensive_sample_metadata := comprehensive_sample_metadata o;
     detailed_sampling_summary := detailed_sampling_summary o |}.

Definition with_gaze_tables (G F : list gaze_row) (o : OutDir) : OutDir :=
  {| master_sheet_sample := master_sheet_sample o;
     audio_copied := audio_copied o;
     eye_gaze_sample := put_rows G (eye_gaze_sample o);
     fixations_sample := put_rows F (fixations_sample o);
     bounding_boxes_sample := bounding_boxes_sample o;
     comprehensive_sample_metadata := comprehensive_sample_metadata o;
     detailed_sampling_summary := detailed_sampling_summary o |}.

Definition with_boxes (B : option (list bbox_row)) (o : OutDir) : OutDir :=
  {| master_sheet_sample := master_sheet_sample o;
     audio_copied := audio_copied o;
     eye_gaze_sample := eye_gaze_sample o;
     fixations_sample := fixations_sample o;
     bounding_boxes_sample :=
       match B with Some b => Some b | None => bounding_boxes_sample o end;
     comprehensive_sample_metadata := comprehensive_sample_metadata o;
     detailed_sampling_summary := detailed_sampling_summary o |}.

Definition with_report (md : Metadata) (o : OutDir) : OutDir :=
  {| master_sheet_sample := master_sheet_sample o;
     audio_copied := audio_copied o;
     eye_gaze_sample := eye_gaze_sample o;
     fixations_sample := fixations_sample o;
     bounding_boxes_sample := bounding_boxes_sample o;
     comprehensive_sample_metadata := Some md;
     detailed_sampling_summary := true |}.

(** The bounding-box rows of the selected cases, when the table exists. *)
Definition selected_boxes (raw : RawData) (sample_df : DataFrame)
    : option (list bbox_row) :=
  match bounding_boxes_csv raw with
  | Readable boxes =>
      Some (filter (λ r, bbox_dicom_id r ∈@{gset string}
                           list_to_set (ids sample_df)) boxes)
  | _ => None
  end.


(** A dataset directory without gaze and fixation tables. *)
Definition tables_absent_raw : RawData :=
  {| raw_path := "/data/egd-cxr";
     master_sheet_csv := Readable normal_df;
     audio_segmentation_transcripts := Some (list_to_set normal_ids);
     eye_gaze_csv := Absent;
     fixations_csv := Absent;
     bounding_boxes_csv := Readable [] |}.

(** A dataset whose fixations.csv cannot be parsed. *)
Definition garbled_fixations_raw : RawData :=
  {| raw_path := "/data/egd-cxr";
     master_sheet_csv := Readable normal_df;
     audio_segmentation_transcripts := Some (list_to_set normal_ids);
     eye_gaze_csv := Readable (mk_gaze <$> normal_ids);
     fixations_csv := Unreadable;
     bounding_boxes_csv := Readable [] |}.

(** A dataset with one bounding box, of the case [n0]. *)
Definition boxed_raw : RawData :=
  {| raw_path := "/data/egd-cxr";
     master_sheet_csv := Readable normal_df;
     audio_segmentation_transcripts := Some (list_to_set normal_ids);
     eye_gaze_csv := Readable (mk_gaze <$> normal_ids);
     fixations_csv := Readable (mk_gaze <$> normal_ids);
     bounding_boxes_csv :=
       Readable [{| bbox_dicom_id := "n0"; bbox_name := "Heart";
                    bbox_coords := [0; 0; 1; 1] |}] |}.

(** A sample whose only case occurs in no table. *)
Definition stranger_sample : DataFrame :=
  {| df_columns := ["dicom_id"; "gender"; "anchor_age"; "Normal"];
     df_rows := [mk_study "stranger" [("Normal", 1)]] |}.


(** ** Reasoning about programs *)

Lemma yields_ret {A} (a : A) (P : A → Prop) : P a → yields (ret a) P.
Proof. intros HP. exists a. split; [reflexivity | exact HP]. Qed.

Lemma yields_bind {A B} (m : Py A) (k : A → Py B) P Q :
  yields m P → (∀ a, P a → yields (k a) Q) → yields (bind m k) Q.
Proof.
  intros (a & Hm & HP) Hk.
  destruct (Hk a HP) as (b & Hb & HQ).
  exists b. split; [| exact HQ].
  intros w. unfold bind. rewrite Hm. apply Hb.
Qed.

Lemma bind_ok {A B} (m : Py A) (k : A → Py B) w a w' :
  m w = (Ok a, w') → bind m k w = k a w'.
Proof. intros Hm. unfold bind. by rewrite Hm. Qed.

Lemma bind_raise {A B} (m : Py A) (k : A → Py B) w e w' :
  m w = (Raise e, w') → bind m k w = (Raise e, w').
Proof. intros Hm. unfold bind. by rewrite Hm. Qed.

Lemma steady_ret {A} (a : A) : steady (ret a).
Proof. by exists (Ok a). Qed.

Lemma steady_raise {A} e : steady (@raise A e).
Proof. by exists (Raise e). Qed.

Lemma steady_bind {A B} (m : Py A) (k : A → Py B) :
  steady m → (∀ a, steady (k a)) → steady (bind m k).
Proof.
  intros [r Hm] Hk. destruct r as [a | e].
  - destruct (Hk a) as [r' Hr']. exists r'.
    intros w. unfold bind. rewrite Hm. apply Hr'.
  - exists (Raise e). intros w. unfold bind. by rewrite Hm.
Qed.

Lemma steady_for_each {A S} (body : S → A → Py S) l :
  (∀ st x, steady (body st x)) → ∀ st, steady (for_each body l st).
Proof.
  intros Hbody. induction l as [| x l IH]; intros st; simpl.
  - apply steady_ret.
  - apply steady_bind; [apply Hbody | apply IH].
Qed.

(** A draw with an explicit seed never looks at the world. *)
Lemma steady_sample_seeded df n s : steady (df_sample df n (Some s)).
Proof.
  unfold df_sample.
  destruct (n <? 0); [apply steady_raise |].
  destruct (df_len df <? n); [apply steady_raise | apply steady_ret].
Qed.

Lemma yields_sample_seeded df n s :
  0 ≤ n ≤ df_len df →
  yields (df_sample df n (Some s)) (λ d, d = draw (seeded s) df n).
Proof.
  intros [H0 Hn]. unfold df_sample.
  destruct (Z.ltb_spec n 0); [lia |].
  destruct (Z.ltb_spec (df_len df) n); [lia |].
  by apply yields_ret.
Qed.

(** ** The sampler never consults the process-wide generator *)

Create HintDb steady.

#[local] Hint Resolve steady_ret steady_raise steady_sample_seeded : steady.

(** Walks through the branches of a step and through its binds. *)
Ltac steady_step :=
  repeat first
    [ progress auto with steady
    | apply steady_bind; [| intros ?]
    | case_bool_decide
    | match goal with
      | |- steady (if ?b then _ else _) => destruct b
      | |- steady (match ?l with [] => _ | _ :: _ => _ end) => destruct l
      end ].

Lemma steady_sample_condition quota D st c :
  steady (sample_condition quota D st c).
Proof. unfold sample_condition. steady_step. Qed.

Lemma steady_sample_complex D st : steady (sample_complex D st).
Proof. unfold sample_complex. steady_step. Qed.

Lemma steady_fill_remaining D n st : steady (fill_remaining D n st).
Proof. unfold fill_remaining. steady_step. Qed.

Lemma steady_combine_samples D n samples :
  steady (combine_samples D n samples).
Proof. unfold combine_samples. steady_step. Qed.

#[local] Hint Resolve steady_sample_condition steady_sample_complex
  steady_fill_remaining steady_combine_samples steady_for_each : steady.

Lemma steady_create_diverse_sample raw df n :
  steady (create_diverse_sample raw df n).
Proof. unfold create_diverse_sample. steady_step. Qed.

(** C1.  Reproducibility of the stratified sampler: for the same raw data,
    case index and target size, two invocations of [create_diverse_sample]
    return the same outcome (the same sample frame, hence the same case
    identifiers in the same order) whatever the state of the process-wide
    random generator is at either invocation, because every draw builds its
    own generator from the seed 42.  Neither invocation changes the
    generator or the output directory. *)
Theorem create_diverse_sample_reproducible raw df n (w1 w2 : World) :
  (create_diverse_sample raw df n w1).1 = (create_diverse_sample raw df n w2).1
  ∧ (create_diverse_sample raw df n w1).2 = w1
  ∧ (create_diverse_sample raw df n w2).2 = w2.
Proof.
  destruct (steady_create_diverse_sample raw df n) as [r Hr].
  by rewrite !Hr.
Qed.

(** ** Facts about draws *)

Lemma take_rows_shift (r : study) rows idx :
  take_rows (r :: rows) (S <$> idx) = take_rows rows idx.
Proof.
  unfold take_rows. induction idx as [| i idx IH]; [done |].
  rewrite fmap_cons. cbn [omap list_omap]. rewrite IH. done.
Qed.

Lemma take_rows_all rows : take_rows rows (seq 0 (length rows)) = rows.
Proof.
  induction rows as [| r rows IH]; [done |].
  simpl length. rewrite <- cons_seq, <- fmap_S_seq.
  change (take_rows (r :: rows) (0%nat :: (S <$> seq 0 (length rows))))
    with (r :: take_rows (r :: rows) (S <$> seq 0 (length rows))).
  by rewrite take_rows_shift, IH.
Qed.

Lemma take_rows_elem rows idx r : r ∈ take_rows rows idx → r ∈ rows.
Proof.
  unfold take_rows. rewrite list_elem_of_omap.
  intros (i & _ & Hi). by eapply list_elem_of_lookup_2.
Qed.

Lemma take_rows_length rows idx :
  (∀ i, i ∈ idx → (i < length rows)%nat) →
  length (take_rows rows idx) = length idx.
Proof.
  unfold take_rows. induction idx as [| i idx IH]; intros Hlt; [done |].
  simpl. destruct (lookup_lt_is_Some_2 rows i) as [r Hr].
  { apply Hlt. left. }
  rewrite Hr. simpl. f_equal. apply IH. intros j Hj. apply Hlt. by right.
Qed.

Lemma draw_elem g df n r : r ∈ df_rows (draw g df n) → r ∈ df_rows df.
Proof. apply take_rows_elem. Qed.

(** The drawn rows together with the rows left behind are the frame. *)
Lemma draw_split g df n :
  perm_ok → ∃ rest, df_rows (draw g df n) ++ rest ≡ₚ df_rows df.
Proof.
  intros Hperm.
  set (p := (permutation g (length (df_rows df))).1).
  exists (take_rows (df_rows df) (drop (Z.to_nat n) p)).
  unfold draw. simpl. fold p. unfold take_rows.
  rewrite <- omap_app, take_drop.
  etransitivity; [apply omap_Permutation, Hperm |].
  change (take_rows (df_rows df) (seq 0 (length (df_rows df))) ≡ₚ df_rows df).
  by rewrite take_rows_all.
Qed.

Lemma draw_length g df n :
  perm_ok → 0 ≤ n ≤ df_len df → df_len (draw g df n) = n.
Proof.
  intros Hperm Hn. unfold df_len in *.
  unfold draw; simpl.
  set (p := (permutation g (length (df_rows df))).1).
  assert (Hp : p ≡ₚ seq 0 (length (df_rows df))) by apply Hperm.
  rewrite take_rows_length.
  - rewrite length_take_le; [lia |].
    rewrite Hp, length_seq. lia.
  - intros i Hi. apply subseteq_take in Hi.
    rewrite Hp in Hi. apply elem_of_seq in Hi. lia.
Qed.

Lemma draw_ids_NoDup g df n :
  perm_ok → NoDup (ids df) → NoDup (ids (draw g df n)).
Proof.
  intros Hperm Hnd. destruct (draw_split g df n Hperm) as [rest Hrest].
  unfold ids in *. rewrite <- Hrest, fmap_app in Hnd.
  by apply NoDup_app in Hnd as (? & _ & _).
Qed.

(** ** Facts about frames and the rows already used *)

Lemma ids_filter_sublist (P : study → Prop) `{!∀ r, Decision (P r)} rows :
  dicom_id <$> filter P rows `sublist_of` dicom_id <$> rows.
Proof. apply fmap_sublist, sublist_filter. Qed.

Lemma length_unused rows (used : gset string) (L : list string) :
  NoDup (dicom_id <$> rows) → NoDup L →
  (∀ x, x ∈ used ↔ x ∈ L) →
  (∀ x, x ∈ L → x ∈ dicom_id <$> rows) →
  (length (filter (unused used) rows) + length L = length rows)%nat.
Proof.
  intros Hrows HL Hused Hsub.
  pose proof (Permutation_length (filter_app_complement (unused used) rows))
    as Hsplit.
  rewrite length_app in Hsplit.
  enough (length L = length (filter (λ r, ¬ unused used r) rows)) by lia.
  rewrite <- (length_fmap dicom_id (filter _ rows)).
  apply Permutation_length, NoDup_Permutation; [done | |].
  - apply (sublist_NoDup _ (dicom_id <$> rows));
      [done | apply ids_filter_sublist].
  - intros x. rewrite list_elem_of_fmap. split.
    + intros Hx. pose proof (Hsub x Hx) as Hin.
      apply list_elem_of_fmap in Hin as (r & -> & Hr).
      exists r. split; [done |]. apply list_elem_of_filter. split; [| done].
      unfold unused. intros Hn. apply Hn. by apply Hused.
    + intros (r & -> & Hr). apply list_elem_of_filter in Hr as [Hr _].
      apply Hused. unfold unused in Hr.
      destruct (decide (dicom_id r ∈ used)); [done | by destruct Hr].
Qed.

Lemma picked_record st s : picked (record_sample st s) = picked st ++ df_rows s.
Proof.
  unfold picked, record_sample. simpl.
  rewrite fmap_app, concat_app. simpl. by rewrite app_nil_r.
Qed.

Lemma total_len_picked st : total_len st.1 = Z.of_nat (length (picked st)).
Proof.
  unfold picked. generalize st.1. intros samples.
  induction samples as [| s l IH]; [done |].
  rewrite fmap_cons. cbn [concat total_len foldr].
  fold (total_len l). rewrite length_app, IH. unfold df_len. lia.
Qed.

Lemma same_case_refl r : same_case r r.
Proof. by split. Qed.

Lemma same_case_set_cell r v : same_case r (set_cell "complexity" v r).
Proof.
  split; [done |]. intros c Hc. simpl. by rewrite lookup_insert_ne.
Qed.

(** ** What each step of the sampler returns *)

Lemma sample_condition_yields quota D st c :
  0 < quota →
  yields (sample_condition quota D st c) (λ st', st' = condition_next quota D st c).
Proof.
  intros Hq. unfold sample_condition, condition_next, condition_frame.
  case_bool_decide; simpl; [| by apply yields_ret].
  destruct (Z.ltb_spec 0
    (df_len (df_filter (unused st.2) (df_filter (positive c) D))));
    [| by apply yields_ret].
  eapply yields_bind; [apply yields_sample_seeded; lia |].
  intros s ->. by apply yields_ret.
Qed.

Lemma sample_complex_yields D st :
  yields (sample_complex D st) (λ st', st' = complex_next D st).
Proof.
  unfold sample_complex, complex_next, complex_frame.
  destruct (Z.ltb_spec 0 (df_len (df_filter (unused st.2) D))) as [Hm | Hm].
  - match goal with
    | |- context [0 <? df_len ?F] => destruct (Z.ltb_spec 0 (df_len F))
    end; [| by apply yields_ret].
    eapply yields_bind; [apply yields_sample_seeded; lia |].
    intros s ->. by apply yields_ret.
  - apply yields_ret.
    assert (Hnil : df_rows (df_filter (unused st.2) D) = []).
    { unfold df_len in Hm. destruct (df_rows _); [done | simpl in Hm; lia]. }
    unfold df_filter at 1, df_assign. simpl.
    unfold df_filter in Hnil. simpl in Hnil. by rewrite Hnil.
Qed.

Lemma fill_remaining_yields D n st :
  yields (fill_remaining D n st) (λ st', st' = fill_next D n st).
Proof.
  unfold fill_remaining, fill_next.
  destruct (Z.ltb_spec 0 (n - total_len st.1)); simpl;
    [| by apply yields_ret].
  destruct (Z.ltb_spec 0 (df_len (df_filter (unused st.2) D)));
    [| by apply yields_ret].
  eapply yields_bind; [apply yields_sample_seeded; lia |].
  intros s ->. by apply yields_ret.
Qed.

(** ** The invariant of the loops *)

Lemma sampler_inv_init D : sampler_inv D ([], ∅).
Proof.
  split; simpl.
  - intros x. unfold picked. simpl. set_solver.
  - intros r Hr. unfold picked in Hr. simpl in Hr. by apply elem_of_nil in Hr.
  - intros _ _. unfold picked. simpl. constructor.
Qed.

Lemma record_draw_inv D st F g n :
  sampler_inv D st →
  (∀ r, r ∈ df_rows F → from_frame D r ∧ unused st.2 r) →
  ids F `sublist_of` ids D →
  sampler_inv D (record_sample st (draw g F n)).
Proof.
  intros [Hu Hf Hn] HF Hsub. split.
  - intros x. rewrite picked_record, fmap_app. simpl.
    rewrite elem_of_union, elem_of_list_to_set, elem_of_app, Hu. done.
  - intros r. rewrite picked_record, elem_of_app.
    intros [Hr | Hr]; [by apply Hf |].
    apply draw_elem in Hr. by apply HF.
  - intros Hp Hd. rewrite picked_record, fmap_app.
    apply NoDup_app. split; [by apply Hn |]. split.
    + intros x Hx Hx'. apply Hu in Hx.
      apply list_elem_of_fmap in Hx' as (r & -> & Hr).
      apply draw_elem in Hr. by apply HF in Hr as [_ Hr].
    + apply draw_ids_NoDup; [done |].
      by apply (sublist_NoDup _ (ids D)).
Qed.

Lemma condition_next_inv quota D st c :
  sampler_inv D st → sampler_inv D (condition_next quota D st c).
Proof.
  intros Hinv. unfold condition_next.
  destruct (_ && _); [| done].
  apply record_draw_inv; [done | |].
  - intros r Hr. unfold condition_frame in Hr. simpl in Hr.
    apply list_elem_of_filter in Hr as [Hun Hr].
    apply list_elem_of_filter in Hr as [_ Hr].
    split; [| done]. exists r. split; [done | apply same_case_refl].
  - unfold ids, condition_frame. simpl.
    etransitivity; apply ids_filter_sublist.
Qed.

Lemma complex_next_inv D st :
  sampler_inv D st → sampler_inv D (complex_next D st).
Proof.
  intros Hinv. unfold complex_next.
  destruct (0 <? _); [| done].
  apply record_draw_inv; [done | |].
  - intros r Hr. unfold complex_frame in Hr. simpl in Hr.
    apply list_elem_of_filter in Hr as [_ Hr].
    apply list_elem_of_fmap in Hr as (r0 & -> & Hr0).
    apply list_elem_of_filter in Hr0 as [Hun Hr0].
    split; [| done]. exists r0. split; [done | apply same_case_set_cell].
  - unfold ids, complex_frame. simpl.
    etransitivity; [apply ids_filter_sublist |].
    rewrite <- list_fmap_compose.
    change (dicom_id <$> filter (unused st.2) (df_rows D)
              `sublist_of` dicom_id <$> df_rows D).
    apply ids_filter_sublist.
Qed.

Lemma fill_next_inv D n st :
  sampler_inv D st → sampler_inv D (fill_next D n st).
Proof.
  intros Hinv. unfold fill_next.
  destruct (_ && _); [| done].
  apply record_draw_inv; [done | |].
  - intros r Hr. simpl in Hr.
    apply list_elem_of_filter in Hr as [Hun Hr].
    split; [| done]. exists r. split; [done | apply same_case_refl].
  - unfold ids. simpl. apply ids_filter_sublist.
Qed.

Lemma df_len_nonneg df : 0 ≤ df_len df.
Proof. unfold df_len. lia. Qed.

Lemma for_each_condition_yields quota D l st :
  0 < quota →
  yields (for_each (sample_condition quota D) l st)
    (λ st', st' = foldl (condition_next quota D) st l).
Proof.
  intros Hq. revert st. induction l as [| c l IH]; intros st; simpl.
  - by apply yields_ret.
  - eapply yields_bind; [by apply sample_condition_yields |].
    intros st' ->. apply IH.
Qed.

Lemma combine_samples_yields D n samples :
  0 ≤ n →
  yields (combine_samples D n samples) (λ s, s = combine_next D n samples).
Proof.
  intros Hn. pose proof (df_len_nonneg D).
  unfold combine_samples, combine_next.
  destruct samples as [| s l]; (eapply (yields_bind _ _ (λ f, f = _));
    [first [by apply yields_ret | apply yields_sample_seeded; lia] |]);
    intros final ->; simpl;
    match goal with
    | |- context [n <? df_len ?F] => destruct (Z.ltb_spec n (df_len F))
    end;
    first [by apply yields_ret | apply yields_sample_seeded; lia].
Qed.

(** For a non-negative target the sampler returns, in every world and
    without changing it, the frame [selection] computes. *)
Lemma create_diverse_sample_yields raw df n :
  0 ≤ n →
  yields (create_diverse_sample raw df n)
    (λ s, s = selection (complete_frame raw df) n).
Proof.
  intros Hn. unfold create_diverse_sample, selection, quota_state.
  eapply yields_bind; [by apply for_each_condition_yields |].
  intros st1 ->.
  eapply yields_bind; [apply sample_complex_yields |].
  intros st2 ->.
  eapply yields_bind; [by apply for_each_condition_yields |].
  intros st3 ->.
  eapply yields_bind; [apply fill_remaining_yields |].
  intros st4 ->. by apply combine_samples_yields.
Qed.

Lemma foldl_condition_next_inv quota D l st :
  sampler_inv D st → sampler_inv D (foldl (condition_next quota D) st l).
Proof.
  revert st. induction l as [| c l IH]; intros st Hst; simpl; [done |].
  by apply IH, condition_next_inv.
Qed.

Lemma quota_state_inv D : sampler_inv D (quota_state D).
Proof.
  unfold quota_state.
  apply foldl_condition_next_inv, complex_next_inv,
    foldl_condition_next_inv, sampler_inv_init.
Qed.

(** ** Sizes *)

Lemma total_len_record st s :
  total_len (record_sample st s).1 = total_len st.1 + df_len s.
Proof.
  rewrite !total_len_picked, picked_record, length_app. unfold df_len. lia.
Qed.

Lemma picked_ids_in_frame D st r :
  sampler_inv D st → r ∈ picked st → dicom_id r ∈ ids D.
Proof.
  intros Hinv Hr. destruct (inv_from _ _ Hinv r Hr) as (r0 & Hr0 & Hid & _).
  rewrite Hid. unfold ids. apply list_elem_of_fmap. eauto.
Qed.

Lemma picked_le_frame D st :
  perm_ok → NoDup (ids D) → sampler_inv D st →
  total_len st.1 ≤ df_len D.
Proof.
  intros Hp Hd Hinv. rewrite total_len_picked. unfold df_len.
  apply inj_le.
  rewrite <- (length_fmap dicom_id (picked st)),
    <- (length_fmap dicom_id (df_rows D)).
  apply submseteq_length, NoDup_submseteq; [by apply (inv_nodup _ _ Hinv) |].
  intros x (r & -> & Hr)%list_elem_of_fmap.
  by eapply picked_ids_in_frame.
Qed.

Lemma unused_len D st :
  perm_ok → NoDup (ids D) → sampler_inv D st →
  df_len (df_filter (unused st.2) D) + total_len st.1 = df_len D.
Proof.
  intros Hp Hd Hinv. rewrite total_len_picked. unfold df_len. simpl.
  pose proof (length_unused (df_rows D) st.2 (dicom_id <$> picked st)) as H.
  rewrite length_fmap in H. rewrite <- H; [lia | done | | |].
  - by apply (inv_nodup _ _ Hinv).
  - apply (inv_used _ _ Hinv).
  - intros x (r & -> & Hr)%list_elem_of_fmap.
    by eapply picked_ids_in_frame.
Qed.

Lemma fill_next_size D n st :
  perm_ok → NoDup (ids D) → sampler_inv D st →
  n ≤ total_len (fill_next D n st).1 ∨
  total_len (fill_next D n st).1 = Z.min n (df_len D).
Proof.
  intros Hp Hd Hinv. pose proof (unused_len D st Hp Hd Hinv) as Hlen.
  pose proof (df_len_nonneg (df_filter (unused st.2) D)).
  unfold fill_next.
  destruct (Z.ltb_spec 0 (n - total_len st.1)); simpl; [| left; lia].
  destruct (Z.ltb_spec 0 (df_len (df_filter (unused st.2) D)));
    [| right; lia].
  right. rewrite total_len_record, draw_length; [lia | done | lia].
Qed.

Lemma combine_next_from D n st :
  sampler_inv D st →
  ∀ r, r ∈ df_rows (combine_next D n st.1) → from_frame D r.
Proof.
  intros Hinv r. unfold combine_next.
  assert (Hfinal : ∀ r,
    r ∈ df_rows match st.1 with
                | _ :: _ => pd_concat st.1
                | [] => draw (seeded 42) D (Z.min n (df_len D))
                end → from_frame D r).
  { intros r0. destruct st.1 as [| s l] eqn:Hs.
    - intros Hr%draw_elem. exists r0. split; [done | apply same_case_refl].
    - intros Hr. apply (inv_from _ _ Hinv). unfold picked. by rewrite Hs. }
  destruct (n <? _); [| apply Hfinal].
  intros Hr%draw_elem. by apply Hfinal.
Qed.

Lemma combine_next_size D n st :
  perm_ok → NoDup (ids D) → sampler_inv D st → 0 ≤ n →
  (n ≤ total_len st.1 ∨ total_len st.1 = Z.min n (df_len D)) →
  NoDup (ids (combine_next D n st.1)) ∧
  df_len (combine_next D n st.1) = Z.min n (df_len D).
Proof.
  intros Hp Hd Hinv Hn Htot. pose proof (df_len_nonneg D).
  pose proof (picked_le_frame D st Hp Hd Hinv) as Hle.
  pose proof (inv_nodup _ _ Hinv Hp Hd) as Hnd.
  pose proof (total_len_picked st) as Htl.
  unfold combine_next. unfold picked in *.
  destruct st.1 as [| s l] eqn:Hs.
  - rewrite draw_length by (done || lia).
    destruct (Z.ltb_spec n (Z.min n (df_len D))); [lia |].
    split; [by apply draw_ids_NoDup |].
    by rewrite draw_length by (done || lia).
  - assert (Hlen : df_len (pd_concat (s :: l)) = total_len (s :: l)).
    { by rewrite Htl. }
    rewrite Hlen.
    destruct (Z.ltb_spec n (total_len (s :: l))).
    + split; [by apply draw_ids_NoDup |].
      rewrite draw_length; [lia | done | lia].
    + split; [done | lia].
Qed.

(** ** The validated frame *)

Lemma validate_filter raw l :
  validate_data_completeness raw l = filter (is_complete raw) l.
Proof.
  induction l as [| id l IH]; [done |]. simpl.
  rewrite filter_cons, IH.
  destruct (decide (is_complete raw id)) as [(Ha & Hg & Hf) | Hc].
  - rewrite bool_decide_false by (intros Hn; by apply Hn).
    by rewrite Hg, Hf.
  - case_bool_decide as Ha; [done |].
    destruct (quick_check (eye_gaze_csv raw) id) eqn:Hg,
      (quick_check (fixations_csv raw) id) eqn:Hf; simpl; try done.
    exfalso. apply Hc. by split.
Qed.

Lemma ids_filter_in (P : string → Prop) `{!∀ x, Decision (P x)}
    (all : list string) (rows : list study) :
  (∀ r, r ∈ rows → dicom_id r ∈ all) →
  dicom_id <$> filter (λ r, dicom_id r ∈ filter P all) rows
  = filter P (dicom_id <$> rows).
Proof.
  induction rows as [| r rows IH]; intros Hall; [done |].
  rewrite fmap_cons, !filter_cons.
  assert (Hr : dicom_id r ∈ all) by (apply Hall; left).
  assert (Hrows : ∀ r', r' ∈ rows → dicom_id r' ∈ all)
    by (intros r' Hr'; apply Hall; by right).
  destruct (decide (P (dicom_id r))) as [HP | HP].
  - rewrite decide_True by (by apply list_elem_of_filter).
    rewrite fmap_cons. f_equal. by apply IH.
  - rewrite decide_False by (by intros [? _]%list_elem_of_filter).
    by apply IH.
Qed.

Lemma complete_frame_ids raw df :
  ids (complete_frame raw df) = validated raw df.
Proof.
  unfold complete_frame, validated, ids. simpl.
  rewrite !validate_filter. apply ids_filter_in.
  intros r Hr. apply list_elem_of_fmap. eauto.
Qed.

Lemma complete_frame_len raw df :
  df_len (complete_frame raw df) = Z.of_nat (length (validated raw df)).
Proof.
  rewrite <- complete_frame_ids. unfold df_len, ids.
  by rewrite length_fmap.
Qed.

Lemma complete_frame_NoDup raw df :
  NoDup (ids df) → NoDup (ids (complete_frame raw df)).
Proof.
  intros Hd. apply (sublist_NoDup _ (ids df)); [done |].
  unfold ids, complete_frame. simpl. apply ids_filter_sublist.
Qed.

(** ** Properties of the stratified sampler *)

Lemma selection_from D n r :
  r ∈ df_rows (selection D n) → from_frame D r.
Proof.
  unfold selection. apply combine_next_from, fill_next_inv, quota_state_inv.
Qed.

Lemma selection_size D n :
  perm_ok → NoDup (ids D) → 0 ≤ n →
  NoDup (ids (selection D n)) ∧ df_len (selection D n) = Z.min n (df_len D).
Proof.
  intros Hp Hd Hn. unfold selection.
  apply combine_next_size; [done | done | | done |].
  - apply fill_next_inv, quota_state_inv.
  - apply fill_next_size; [done | done | apply quota_state_inv].
Qed.

(** C3.  Size and uniqueness of the sample: when the identifiers of the
    case index are unique, the target size [n] is not negative and the
    generator's [permutation] returns permutations, [create_diverse_sample]
    returns a frame that has no duplicate case identifier and exactly
    [min n (number of validated cases)] rows, so never more than [n]. *)
Theorem create_diverse_sample_size raw df n :
  perm_ok → NoDup (ids df) → 0 ≤ n →
  ∃ s, (∀ w, create_diverse_sample raw df n w = (Ok s, w)) ∧
       NoDup (ids s) ∧
       df_len s = Z.min n (Z.of_nat (length (validated raw df))) ∧
       df_len s ≤ n.
Proof.
  intros Hp Hd Hn.
  destruct (create_diverse_sample_yields raw df n Hn) as (s & Hs & ->).
  exists (selection (complete_frame raw df) n). split; [done |].
  destruct (selection_size (complete_frame raw df) n Hp
              (complete_frame_NoDup raw df Hd) Hn) as [Hnd Hlen].
  rewrite complete_frame_len in Hlen. repeat split; [done | done | lia].
Qed.

(** C7.  The sample stays inside the validated pool: for a non-negative
    target size [create_diverse_sample] returns a frame, and every case
    identifier in it is one of the identifiers that passed the completeness
    validation of the case index. *)
Theorem create_diverse_sample_validated raw df n :
  0 ≤ n →
  ∃ s, (∀ w, create_diverse_sample raw df n w = (Ok s, w)) ∧
       ∀ id, id ∈ ids s → id ∈ validated raw df.
Proof.
  intros Hn.
  destruct (create_diverse_sample_yields raw df n Hn) as (s & Hs & ->).
  exists (selection (complete_frame raw df) n). split; [done |].
  intros id (r & -> & Hr)%list_elem_of_fmap.
  apply selection_from in Hr as (r0 & Hr0 & Hid & _).
  rewrite Hid, <- complete_frame_ids. apply list_elem_of_fmap. eauto.
Qed.

(** ** Properties of the completeness validator *)

Lemma quick_check_row f id :
  quick_check f id = true →
  ∃ rows r, f = Readable rows ∧ r ∈ rows ∧ DICOM_ID r = id.
Proof.
  destruct f as [| | rows]; simpl; [done | done |].
  intros Hin%bool_decide_eq_true.
  apply list_elem_of_fmap in Hin as (r & -> & Hr).
  exists rows, r. split; [done |]. split; [| done].
  by apply (subseteq_take 1000).
Qed.

Lemma validated_complete raw l id :
  id ∈ validate_data_completeness raw l ↔ id ∈ l ∧ is_complete raw id.
Proof. rewrite validate_filter, list_elem_of_filter. tauto. Qed.

(** C4.  The validator keeps an identifier only if the transcripts
    directory has an entry for it and at least one row of the gaze table and
    at least one row of the fixation table carry it.  It is a total function
    into lists: whenever a piece is missing (no directory entry, no gaze
    row, no fixation row) the identifier is left out of the result. *)
Theorem validate_data_completeness_sound raw l id :
  (id ∈ validate_data_completeness raw l →
     id ∈ l ∧
     (∃ listing, audio_segmentation_transcripts raw = Some listing
                 ∧ id ∈ listing) ∧
     (∃ rows r, eye_gaze_csv raw = Readable rows ∧ r ∈ rows ∧ DICOM_ID r = id) ∧
     (∃ rows r, fixations_csv raw = Readable rows ∧ r ∈ rows ∧ DICOM_ID r = id))
  ∧ (id ∉ available_audio raw → id ∉ validate_data_completeness raw l)
  ∧ ((∀ rows r, eye_gaze_csv raw = Readable rows → r ∈ rows → DICOM_ID r ≠ id)
     → id ∉ validate_data_completeness raw l)
  ∧ ((∀ rows r, fixations_csv raw = Readable rows → r ∈ rows → DICOM_ID r ≠ id)
     → id ∉ validate_data_completeness raw l).
Proof.
  assert (Hsound : id ∈ validate_data_completeness raw l →
     id ∈ l ∧ id ∈ available_audio raw ∧
     (∃ rows r, eye_gaze_csv raw = Readable rows ∧ r ∈ rows ∧ DICOM_ID r = id) ∧
     (∃ rows r, fixations_csv raw = Readable rows ∧ r ∈ rows ∧ DICOM_ID r = id)).
  { intros (Hl & Ha & Hg & Hf)%validated_complete.
    repeat split; [done | done | |]; by apply quick_check_row. }
  repeat split.
  - by apply Hsound.
  - apply Hsound in H as (_ & Ha & _). unfold available_audio in Ha.
    destruct (audio_segmentation_transcripts raw) as [listing |]; simpl in Ha.
    + by exists listing.
    + by apply not_elem_of_empty in Ha.
  - by apply Hsound.
  - by apply Hsound.
  - intros Hn Hin. by apply Hsound in Hin as (_ & Ha & _).
  - intros Hn Hin. apply Hsound in Hin as (_ & _ & (rows & r & ? & ? & ?) & _).
    by eapply Hn.
  - intros Hn Hin. apply Hsound in Hin as (_ & _ & _ & (rows & r & ? & ? & ?)).
    by eapply Hn.
Qed.

(** C9.  A false negative of the validator: in [late_raw] the case [late]
    has a transcript directory, a gaze row and a fixation row, but both rows
    are the 1001st of their table, beyond the 1000 rows the quick check
    reads, and the validator leaves the case out. *)
Theorem validate_data_completeness_false_negative :
  ∃ raw id gaze fixations,
    eye_gaze_csv raw = Readable gaze ∧
    fixations_csv raw = Readable fixations ∧
    id ∈ available_audio raw ∧
    id ∈ (DICOM_ID <$> gaze) ∧
    id ∈ (DICOM_ID <$> fixations) ∧
    (id ∉ DICOM_ID <$> take 1000 gaze) ∧
    (id ∉ DICOM_ID <$> take 1000 fixations) ∧
    validate_data_completeness raw [id] = [].
Proof.
  exists late_raw, "late", late_table, late_table.
  assert (Hin : "late" ∈ DICOM_ID <$> late_table).
  { unfold late_table. rewrite fmap_app, elem_of_app. right. simpl. left. }
  assert (Hout : "late" ∉ DICOM_ID <$> take 1000 late_table).
  { unfold late_table. rewrite take_app_length' by (by rewrite length_replicate).
    rewrite fmap_replicate. intros [Heq _]%elem_of_replicate. done. }
  repeat split; done.
Qed.

(** ** Properties of the subset extraction *)

Lemma chunks_from_concat {A} fuel size (rows : list A) :
  (0 < size)%nat → (length rows ≤ fuel)%nat →
  concat (chunks_from fuel size rows) = rows.
Proof.
  intros Hsize. revert rows.
  induction fuel as [| fuel IH]; intros rows Hfuel.
  - destruct rows; [done | simpl in Hfuel; lia].
  - destruct rows as [| r rows]; [done |].
    cbn [chunks_from concat]. rewrite IH.
    + apply take_drop.
    + rewrite length_drop. simpl in *. lia.
Qed.

Lemma read_chunks_concat {A} size (rows : list A) :
  (0 < size)%nat → concat (read_chunks size rows) = rows.
Proof. intros Hsize. by apply chunks_from_concat. Qed.

Lemma filter_chunks_acc S chunks kept :
  foldl
    (λ kept chunk,
       let chunk_filtered := filter (selected S) chunk in
       if (0 <? length chunk_filtered)%nat then kept ++ [chunk_filtered]
       else kept)
    kept chunks
  = kept ++ filter_chunks S chunks.
Proof.
  unfold filter_chunks. revert kept.
  induction chunks as [| c chunks IH]; intros kept; simpl.
  - by rewrite app_nil_r.
  - destruct (0 <? _)%nat.
    + rewrite IH, (IH [_]). by rewrite <- app_assoc.
    + apply IH.
Qed.

Lemma filter_chunks_cons S c chunks :
  filter_chunks S (c :: chunks)
  = match filter (selected S) c with
    | [] => filter_chunks S chunks
    | r :: rs => (r :: rs) :: filter_chunks S chunks
    end.
Proof.
  unfold filter_chunks at 1. simpl. rewrite filter_chunks_acc.
  by destruct (filter (selected S) c).
Qed.

(** The kept chunks, concatenated, are the selected rows of the
    concatenated chunks, in the same order. *)
Lemma filter_chunks_concat S chunks :
  concat (filter_chunks S chunks) = filter (selected S) (concat chunks).
Proof.
  induction chunks as [| c chunks IH]; [done |].
  rewrite filter_chunks_cons. simpl. rewrite filter_app, <- IH.
  destruct (filter (selected S) c); [done | by simpl].
Qed.

(** What the extraction of one table hands to the writer. *)
Lemma extract_table S rows :
  match filter_chunks S (read_chunks (Z.to_nat 10000) rows) with
  | [] => filter (selected S) rows = []
  | c :: l => concat (c :: l) = filter (selected S) rows
              ∧ filter (selected S) rows ≠ []
  end.
Proof.
  pose proof (filter_chunks_concat S (read_chunks (Z.to_nat 10000) rows)) as H.
  rewrite read_chunks_concat in H by lia.
  destruct (filter_chunks S _) as [| c l] eqn:Hc; [done |].
  split; [done |]. rewrite <- H.
  clear H. revert Hc. generalize (read_chunks (Z.to_nat 10000) rows).
  intros chunks. induction chunks as [| c0 chunks IH]; [done |].
  rewrite filter_chunks_cons.
  destruct (filter (selected S) c0) eqn:Hc0; [apply IH |].
  intros [= <- <-]. done.
Qed.

(** The two tables of [sample_gaze_data], when both files can be read. *)
Lemma sample_gaze_data_readable raw sample_df gaze fixations w :
  eye_gaze_csv raw = Readable gaze →
  fixations_csv raw = Readable fixations →
  let S : gset string := list_to_set (ids sample_df) in
  let G := filter (selected S) gaze in
  let F := filter (selected S) fixations in
  ∃ w',
    sample_gaze_data raw sample_df w = (Ok (length G, length F), w') ∧
    np_random w' = np_random w ∧
    eye_gaze_sample (output_dir w')
      = put_rows G (eye_gaze_sample (output_dir w)) ∧
    fixations_sample (output_dir w')
      = put_rows F (fixations_sample (output_dir w)) ∧
    bounding_boxes_sample (output_dir w')
      = bounding_boxes_sample (output_dir w) ∧
    comprehensive_sample_metadata (output_dir w')
      = comprehensive_sample_metadata (output_dir w).
Proof.
  intros Hg Hf S G F. unfold sample_gaze_data. rewrite Hg, Hf.
  fold S.
  pose proof (extract_table S gaze) as HG.
  pose proof (extract_table S fixations) as HF.
  fold G in HG. fold F in HF.
  unfold bind, write_gaze, write_fixations, write_out, ret.
  destruct (filter_chunks S (read_chunks _ gaze)) as [| cg lg]; simpl;
    destruct (filter_chunks S (read_chunks _ fixations)) as [| cf lf]; simpl.
  - rewrite HG, HF. eexists. by repeat split.
  - destruct HF as [HF HFn]. rewrite HG. simpl in HF. rewrite HF.
    eexists. repeat split; simpl; try done.
    by destruct F.
  - destruct HG as [HG HGn]. rewrite HF. simpl in HG. rewrite HG.
    eexists. repeat split; simpl; try done.
    by destruct G.
  - destruct HG as [HG HGn], HF as [HF HFn]. simpl in HG, HF.
    rewrite HG, HF.
    eexists. repeat split; simpl; try done.
    + by destruct G.
    + by destruct F.
Qed.

Lemma sample_bounding_boxes_readable raw sample_df boxes w :
  bounding_boxes_csv raw = Readable boxes →
  let S : gset string := list_to_set (ids sample_df) in
  let B := filter (λ r, bbox_dicom_id r ∈ S) boxes in
  ∃ w',
    sample_bounding_boxes raw sample_df w = (Ok (length B), w') ∧
    bounding_boxes_sample (output_dir w') = Some B ∧
    comprehensive_sample_metadata (output_dir w')
      = comprehensive_sample_metadata (output_dir w).
Proof.
  intros Hb S B. unfold sample_bounding_boxes. rewrite Hb.
  unfold bind, write_out, ret. simpl. eexists. by repeat split.
Qed.

Lemma filter_each_concat S (chunks : list (list gaze_row)) :
  concat (filter (selected S) <$> chunks)
  = filter (selected S) (concat chunks).
Proof.
  induction chunks as [| c chunks IH]; [done |].
  rewrite fmap_cons. cbn [concat]. by rewrite filter_app, IH.
Qed.

Lemma case_rows_selected (S : gset string) c rows :
  c ∈ S → case_rows c (filter (selected S) rows) = case_rows c rows.
Proof.
  intros Hc. unfold case_rows. apply list_filter_filter_l.
  intros r Hr. unfold selected. by rewrite Hr.
Qed.

(** C2.  The subset extraction is exact: when the gaze, fixation and
    bounding-box tables can be read, [sample_gaze_data] and
    [sample_bounding_boxes] succeed, every row they extract carries a
    selected case identifier, and the extracted rows are, as a multiset,
    the rows of the source table whose identifier is selected (each matching
    source row once, nothing added, dropped or duplicated).  The counts they
    return are the numbers of those rows.  The gaze and fixation files are
    written when at least one row matched, the bounding-box file always. *)
Theorem subset_extraction_exact raw sample_df gaze fixations boxes w :
  eye_gaze_csv raw = Readable gaze →
  fixations_csv raw = Readable fixations →
  bounding_boxes_csv raw = Readable boxes →
  let S : gset string := list_to_set (ids sample_df) in
  ∃ G F B w1 w2,
    sample_gaze_data raw sample_df w = (Ok (length G, length F), w1) ∧
    sample_bounding_boxes raw sample_df w1 = (Ok (length B), w2) ∧
    eye_gaze_sample (output_dir w1)
      = put_rows G (eye_gaze_sample (output_dir w)) ∧
    fixations_sample (output_dir w1)
      = put_rows F (fixations_sample (output_dir w)) ∧
    bounding_boxes_sample (output_dir w2) = Some B ∧
    (∀ r, r ∈ G → DICOM_ID r ∈ S) ∧
    (∀ r, r ∈ F → DICOM_ID r ∈ S) ∧
    (∀ r, r ∈ B → bbox_dicom_id r ∈ S) ∧
    G ≡ₚ filter (λ r, DICOM_ID r ∈ S) gaze ∧
    F ≡ₚ filter (λ r, DICOM_ID r ∈ S) fixations ∧
    B ≡ₚ filter (λ r, bbox_dicom_id r ∈ S) boxes.
Proof.
  intros Hg Hf Hb S.
  destruct (sample_gaze_data_readable raw sample_df gaze fixations w Hg Hf)
    as (w1 & Hrun & _ & Hwg & Hwf & _).
  destruct (sample_bounding_boxes_readable raw sample_df boxes w1 Hb)
    as (w2 & Hbox & Hwb & _).
  exists (filter (selected S) gaze), (filter (selected S) fixations),
    (filter (λ r, bbox_dicom_id r ∈ S) boxes), w1, w2.
  repeat split; try done.
  - by intros r [? _]%list_elem_of_filter.
  - by intros r [? _]%list_elem_of_filter.
  - by intros r [? _]%list_elem_of_filter.
Qed.

(** C8.  The chunked extraction keeps the source order: the rows extracted
    from the gaze and from the fixation table are the filtered chunks, one
    after the other in the order the chunks are read, which is the
    subsequence of the source rows with a selected identifier.  In
    particular the rows of every selected case come out in the order they
    have in the source table. *)
Theorem subset_extraction_order raw sample_df gaze fixations w :
  eye_gaze_csv raw = Readable gaze →
  fixations_csv raw = Readable fixations →
  let S : gset string := list_to_set (ids sample_df) in
  let G := concat (filter (selected S) <$> read_chunks (Z.to_nat 10000) gaze) in
  let F :=
    concat (filter (selected S) <$> read_chunks (Z.to_nat 10000) fixations) in
  ∃ w1,
    sample_gaze_data raw sample_df w = (Ok (length G, length F), w1) ∧
    eye_gaze_sample (output_dir w1)
      = put_rows G (eye_gaze_sample (output_dir w)) ∧
    fixations_sample (output_dir w1)
      = put_rows F (fixations_sample (output_dir w)) ∧
    G = filter (selected S) gaze ∧
    F = filter (selected S) fixations ∧
    G `sublist_of` gaze ∧
    F `sublist_of` fixations ∧
    ∀ c, c ∈ S →
      case_rows c G = case_rows c gaze ∧
      case_rows c F = case_rows c fixations.
Proof.
  intros Hg Hf S G F.
  assert (HG : G = filter (selected S) gaze).
  { unfold G. rewrite filter_each_concat, read_chunks_concat by lia. done. }
  assert (HF : F = filter (selected S) fixations).
  { unfold F. rewrite filter_each_concat, read_chunks_concat by lia. done. }
  destruct (sample_gaze_data_readable raw sample_df gaze fixations w Hg Hf)
    as (w1 & Hrun & _ & Hwg & Hwf & _).
  exists w1. rewrite HG, HF. repeat split; try done.
  - apply sublist_filter.
  - apply sublist_filter.
  - by apply case_rows_selected.
  - by apply case_rows_selected.
Qed.

(** ** The quota of a primary condition *)

Lemma take_rows_length_le rows idx :
  (length (take_rows rows idx) ≤ length idx)%nat.
Proof.
  unfold take_rows. induction idx as [| i idx IH]; [done |].
  cbn [omap list_omap]. destruct (rows !! i); simpl length; lia.
Qed.

Lemma draw_len_le g df n : 0 ≤ n → df_len (draw g df n) ≤ n.
Proof.
  intros Hn. unfold df_len, draw. simpl.
  pose proof (take_rows_length_le (df_rows df)
    (take (Z.to_nat n) (permutation g (length (df_rows df))).1)) as H.
  rewrite length_take in H. lia.
Qed.

Lemma NoDup_ids_eq (rows : list study) r1 r2 :
  NoDup (dicom_id <$> rows) → r1 ∈ rows → r2 ∈ rows →
  dicom_id r1 = dicom_id r2 → r1 = r2.
Proof.
  induction rows as [| r rows IH]; intros Hnd H1 H2 Heq.
  - by apply elem_of_nil in H1.
  - rewrite fmap_cons in Hnd. apply NoDup_cons in Hnd as [Hr Hnd].
    apply elem_of_cons in H1 as [-> | H1];
      apply elem_of_cons in H2 as [-> | H2]; [done | | | by apply IH].
    + exfalso. apply Hr. rewrite Heq. apply list_elem_of_fmap. eauto.
    + exfalso. apply Hr. rewrite <- Heq. apply list_elem_of_fmap. eauto.
Qed.

Lemma filter_all {A} (P : A → Prop) `{!∀ x, Decision (P x)} (l : list A) :
  (∀ x, x ∈ l → P x) → filter P l = l.
Proof.
  induction l as [| x l IH]; intros Hall; [done |].
  rewrite filter_cons_True by (apply Hall; left).
  f_equal. apply IH. intros y Hy. apply Hall. by right.
Qed.

Lemma count_positive_app c l1 l2 :
  count_positive c (l1 ++ l2) = (count_positive c l1 + count_positive c l2)%nat.
Proof. unfold count_positive. by rewrite filter_app, length_app. Qed.

Lemma condition_next_grows quota D st c :
  0 ≤ quota →
  ∃ rows, picked (condition_next quota D st c) = picked st ++ rows ∧
          Z.of_nat (length rows) ≤ quota.
Proof.
  intros Hq. unfold condition_next.
  destruct (_ && _).
  - eexists. split; [apply picked_record |].
    match goal with
    | |- context [draw ?g ?F ?k] =>
        pose proof (draw_len_le g F k) as Hle;
        pose proof (df_len_nonneg F)
    end.
    unfold df_len in *. lia.
  - exists []. split; [by rewrite app_nil_r | simpl; lia].
Qed.

Lemma complex_next_grows D st :
  ∃ rows, picked (complex_next D st) = picked st ++ rows ∧
          Z.of_nat (length rows) ≤ 8.
Proof.
  unfold complex_next. destruct (0 <? _).
  - eexists. split; [apply picked_record |].
    match goal with
    | |- context [draw ?g ?F ?k] =>
        pose proof (draw_len_le g F k) as Hle;
        pose proof (df_len_nonneg F)
    end.
    unfold df_len in *. lia.
  - exists []. split; [by rewrite app_nil_r | simpl; lia].
Qed.

Lemma fill_next_grows D n st :
  ∃ rows, picked (fill_next D n st) = picked st ++ rows ∧
          total_len st.1 + Z.of_nat (length rows) ≤ Z.max n (total_len st.1).
Proof.
  unfold fill_next.
  destruct (Z.ltb_spec 0 (n - total_len st.1)); simpl.
  - destruct (0 <? _).
    + eexists. split; [apply picked_record |].
      match goal with
      | |- context [draw ?g ?F ?k] =>
          pose proof (draw_len_le g F k) as Hle;
          pose proof (df_len_nonneg F)
      end.
      unfold df_len in *. lia.
    + exists []. split; [by rewrite app_nil_r | simpl; lia].
  - exists []. split; [by rewrite app_nil_r | simpl; lia].
Qed.

Lemma foldl_condition_next_grows quota D l st :
  0 ≤ quota →
  ∃ rows, picked (foldl (condition_next quota D) st l) = picked st ++ rows ∧
          Z.of_nat (length rows) ≤ quota * Z.of_nat (length l).
Proof.
  intros Hq. revert st. induction l as [| c l IH]; intros st.
  - exists []. split; [by rewrite app_nil_r | simpl; lia].
  - simpl foldl.
    destruct (IH (condition_next quota D st c)) as (rows2 & -> & Hlen2).
    destruct (condition_next_grows quota D st c Hq) as (rows1 & -> & Hlen1).
    exists (rows1 ++ rows2). split; [by rewrite app_assoc |].
    rewrite length_app. simpl length. lia.
Qed.

Section PrimaryQuota.

Variable D : DataFrame.
Variable A : string.
Hypothesis Hperm : perm_ok.
Hypothesis HD : NoDup (ids D).
Hypothesis HA : A ∈ primary_conditions.
Hypothesis Hcol : A ∈ df_columns D.
Hypothesis Hpool : (8 ≤ count_positive A (df_rows D))%nat.
Hypothesis Honly :
  ∀ r c, r ∈ df_rows D → positive A r →
         c ∈ primary_conditions ++ secondary_conditions → c ≠ A →
         ¬ positive c r.

Lemma primary_not_complexity : A ≠ "complexity".
Proof.
  intros ->. unfold primary_conditions in HA.
  repeat (apply elem_of_cons in HA as [HA | HA]; [done |]).
  by apply elem_of_nil in HA.
Qed.

(** While no drawn row is positive for [A], no row of the frame that is
    positive for [A] has been used. *)
Lemma positive_rows_unused st r :
  sampler_inv D st →
  (∀ r', r' ∈ picked st → ¬ positive A r') →
  r ∈ df_rows D → positive A r → unused st.2 r.
Proof.
  intros Hinv HnoA Hr Hpos Hin.
  apply (inv_used _ _ Hinv) in Hin.
  apply list_elem_of_fmap in Hin as (r' & Hid & Hr').
  destruct (inv_from _ _ Hinv r' Hr') as (r0 & Hr0 & Hid0 & Hcells).
  assert (r = r0) as <-.
  { apply (NoDup_ids_eq (df_rows D)); [done | done | done | congruence]. }
  apply (HnoA r' Hr'). unfold positive.
  rewrite Hcells; [done | apply primary_not_complexity].
Qed.

Lemma condition_frame_primary st :
  sampler_inv D st →
  (∀ r', r' ∈ picked st → ¬ positive A r') →
  df_rows (condition_frame D st.2 A) = filter (positive A) (df_rows D).
Proof.
  intros Hinv HnoA. unfold condition_frame. simpl.
  apply filter_all. intros r [Hpos Hr]%list_elem_of_filter.
  by apply positive_rows_unused.
Qed.

(** The step for [A] draws eight rows, all positive for [A]. *)
Lemma condition_next_primary st :
  sampler_inv D st →
  (∀ r', r' ∈ picked st → ¬ positive A r') →
  (8 ≤ count_positive A (picked (condition_next 8 D st A)))%nat.
Proof.
  intros Hinv HnoA.
  pose proof (condition_frame_primary st Hinv HnoA) as HF.
  assert (Hlen : df_len (condition_frame D st.2 A)
                 = Z.of_nat (count_positive A (df_rows D))).
  { unfold df_len, count_positive. by rewrite HF. }
  unfold condition_next.
  rewrite bool_decide_true by done. rewrite Hlen.
  destruct (Z.ltb_spec 0 (Z.of_nat (count_positive A (df_rows D)))); [| lia].
  simpl. rewrite picked_record, count_positive_app.
  rewrite Z.min_l by lia.
  set (drawn := draw (seeded 42) (condition_frame D st.2 A) 8).
  assert (Hall : count_positive A (df_rows drawn) = length (df_rows drawn)).
  { unfold count_positive. f_equal. apply filter_all.
    intros r Hr%draw_elem. rewrite HF in Hr.
    by apply list_elem_of_filter in Hr as [? _]. }
  assert (Hdrawn : df_len drawn = 8).
  { apply draw_length; [done | lia]. }
  unfold df_len in Hdrawn. lia.
Qed.

(** The step for another condition draws no row positive for [A]. *)
Lemma condition_next_other st c :
  c ∈ primary_conditions → c ≠ A →
  (∀ r', r' ∈ picked st → ¬ positive A r') →
  ∀ r', r' ∈ picked (condition_next 8 D st c) → ¬ positive A r'.
Proof.
  intros Hc Hne HnoA r'. unfold condition_next.
  destruct (_ && _); [| apply HnoA].
  rewrite picked_record, elem_of_app.
  intros [Hr | Hr]; [by apply HnoA |].
  apply draw_elem in Hr. unfold condition_frame in Hr. simpl in Hr.
  apply list_elem_of_filter in Hr as [_ Hr].
  apply list_elem_of_filter in Hr as [Hposc Hr].
  intros Hpos. apply (Honly r' c); try done.
  apply elem_of_app. by left.
Qed.

Lemma count_positive_grows c st st' rows :
  picked st' = picked st ++ rows →
  (count_positive c (picked st) ≤ count_positive c (picked st'))%nat.
Proof. intros ->. rewrite count_positive_app. lia. Qed.

Lemma primary_loop l st :
  (∀ c, c ∈ l → c ∈ primary_conditions) →
  sampler_inv D st →
  (A ∈ l ∧ ∀ r', r' ∈ picked st → ¬ positive A r') ∨
  (8 ≤ count_positive A (picked st))%nat →
  (8 ≤ count_positive A (picked (foldl (condition_next 8 D) st l)))%nat.
Proof.
  revert st. induction l as [| c l IH]; intros st Hl Hinv Hst.
  - destruct Hst as [[Hin _] | Hst]; [by apply elem_of_nil in Hin | done].
  - simpl foldl. apply IH.
    + intros c' Hc'. apply Hl. by right.
    + by apply condition_next_inv.
    + destruct Hst as [[Hin HnoA] | Hst].
      * destruct (decide (c = A)) as [-> | Hne].
        -- right. by apply condition_next_primary.
        -- left. split.
           ++ apply elem_of_cons in Hin as [Heq | Hin]; [congruence | done].
           ++ apply condition_next_other; [apply Hl; left | done | done].
      * right. destruct (condition_next_grows 8 D st c) as (rows & Hrows & _);
          [lia |].
        pose proof (count_positive_grows A _ _ _ Hrows). lia.
Qed.

Lemma quota_state_primary :
  (8 ≤ count_positive A (picked (quota_state D)))%nat ∧
  total_len (quota_state D).1 ≤ 44.
Proof.
  unfold quota_state.
  set (st1 := foldl (condition_next 8 D) ([], ∅) primary_conditions).
  assert (H1 : (8 ≤ count_positive A (picked st1))%nat).
  { apply primary_loop; [done | apply sampler_inv_init |].
    left. split; [done |]. intros r' Hr'. by apply elem_of_nil in Hr'. }
  destruct (foldl_condition_next_grows 8 D primary_conditions ([], ∅))
    as (rows1 & Hp1 & Hl1); [lia |]. fold st1 in Hp1.
  destruct (complex_next_grows D st1) as (rows2 & Hp2 & Hl2).
  destruct (foldl_condition_next_grows 3 D secondary_conditions
              (complex_next D st1)) as (rows3 & Hp3 & Hl3); [lia |].
  split.
  - pose proof (count_positive_grows A _ _ _ Hp2).
    pose proof (count_positive_grows A _ _ _ Hp3). lia.
  - rewrite total_len_picked, Hp3, Hp2, Hp1, !length_app.
    simpl in *. lia.
Qed.

Lemma selection_primary n :
  44 ≤ n → (8 ≤ count_positive A (df_rows (selection D n)))%nat.
Proof.
  intros Hn. destruct quota_state_primary as [Hcount Htotal].
  unfold selection.
  destruct (fill_next_grows D n (quota_state D)) as (rows & Hp & Hlen).
  pose proof (count_positive_grows A _ _ _ Hp) as Hgrow.
  set (st4 := fill_next D n (quota_state D)) in *.
  assert (Htotal4 : total_len st4.1 ≤ n).
  { rewrite total_len_picked, Hp, length_app.
    rewrite total_len_picked in Hlen, Htotal. lia. }
  unfold combine_next.
  destruct st4.1 as [| s l] eqn:Hs.
  - assert (Hnil : picked st4 = []) by (unfold picked; by rewrite Hs).
    rewrite Hnil in Hgrow.
    change (count_positive A []) with 0%nat in Hgrow. lia.
  - assert (Hrows : df_rows (pd_concat (s :: l)) = picked st4).
    { unfold picked. by rewrite Hs. }
    assert (Hlen4 : df_len (pd_concat (s :: l)) = total_len (s :: l)).
    { unfold df_len. rewrite Hrows, <- Hs. symmetry. apply total_len_picked. }
    rewrite Hlen4.
    destruct (Z.ltb_spec n (total_len (s :: l))); [lia |].
    rewrite Hrows. lia.
Qed.

End PrimaryQuota.

(** C6 (amended).  Quota of a primary condition: let [A] be a primary
    condition that is a column of the case index, with at least eight
    validated cases positive for it, none of them positive for another
    condition, and let the identifiers of the case index be unique.  For a
    target size of at least 44 (the most the quota steps can draw; the run
    uses 50) the sample has at least eight cases positive for [A].  It can
    have more, because the fill step draws from all unused cases. *)
Theorem primary_quota_lower_bound raw df A n :
  perm_ok → NoDup (ids df) →
  A ∈ primary_conditions → A ∈ df_columns df →
  (8 ≤ count_positive A (df_rows (complete_frame raw df)))%nat →
  (∀ r c, r ∈ df_rows (complete_frame raw df) → positive A r →
          c ∈ primary_conditions ++ secondary_conditions → c ≠ A →
          ¬ positive c r) →
  44 ≤ n →
  ∃ s, (∀ w, create_diverse_sample raw df n w = (Ok s, w)) ∧
       (8 ≤ count_positive A (df_rows s))%nat.
Proof.
  intros Hp Hd HA Hcol Hpool Honly Hn.
  destruct (create_diverse_sample_yields raw df n) as (s & Hs & ->); [lia |].
  exists (selection (complete_frame raw df) n). split; [done |].
  apply selection_primary; try done.
  by apply complete_frame_NoDup.
Qed.

(** ** Properties of the metadata generator and of the run *)

Lemma create_comprehensive_metadata_empty sample_df g f b a w :
  df_rows sample_df = [] →
  create_comprehensive_metadata sample_df g f b a w
  = (Raise ZeroDivisionError, w).
Proof.
  intros Hrows. unfold create_comprehensive_metadata, bind, df_assign.
  simpl. by rewrite Hrows.
Qed.

Lemma selection_empty D n : df_rows D = [] → df_rows (selection D n) = [].
Proof.
  intros HD. apply elem_of_nil_inv. intros r Hr.
  apply selection_from in Hr as (r0 & Hr0 & _).
  rewrite HD in Hr0. by apply elem_of_nil in Hr0.
Qed.

Lemma complete_frame_empty raw df :
  validated raw df = [] → df_rows (complete_frame raw df) = [].
Proof.
  intros Hv. apply (fmap_nil_inv dicom_id).
  fold (ids (complete_frame raw df)). by rewrite complete_frame_ids.
Qed.

Lemma copy_audio_transcripts_empty raw sample_df w :
  df_rows sample_df = [] →
  copy_audio_transcripts raw sample_df w = (Ok 0%nat, w).
Proof.
  intros Hrows. unfold copy_audio_transcripts, ids. by rewrite Hrows.
Qed.

(** A run in which no case passes validation gets as far as the metadata
    generator and stops there. *)
Lemma run_without_complete_case raw df gaze fixations boxes w :
  master_sheet_csv raw = Readable df →
  eye_gaze_csv raw = Readable gaze →
  fixations_csv raw = Readable fixations →
  bounding_boxes_csv raw = Readable boxes →
  validated raw df = [] →
  ∃ w', run_enhanced_sampling raw w = (Raise ZeroDivisionError, w') ∧
        comprehensive_sample_metadata (output_dir w')
        = comprehensive_sample_metadata (output_dir w).
Proof.
  intros Hm Hg Hf Hb Hv.
  destruct (create_diverse_sample_yields raw df sample_size)
    as (s & Hs & ->); [done |].
  set (s := selection (complete_frame raw df) sample_size) in *.
  assert (Hrows : df_rows s = []).
  { by apply selection_empty, complete_frame_empty. }
  unfold run_enhanced_sampling.
  erewrite bind_ok; [| unfold load_master_sheet; by rewrite Hm].
  erewrite bind_ok; [| apply Hs].
  erewrite bind_ok; [| reflexivity].
  erewrite bind_ok; [| by apply copy_audio_transcripts_empty].
  match goal with
  | |- context [bind (sample_gaze_data raw s) _ ?w1] =>
      destruct (sample_gaze_data_readable raw s gaze fixations w1 Hg Hf)
        as (w2 & Hrun & _ & _ & _ & _ & Hmeta2)
  end.
  erewrite bind_ok; [| apply Hrun].
  destruct (sample_bounding_boxes_readable raw s boxes w2 Hb)
    as (w3 & Hbox & _ & Hmeta3).
  erewrite bind_ok; [| apply Hbox].
  erewrite bind_raise; [| by apply create_comprehensive_metadata_empty].
  exists w3. split; [done |]. by rewrite Hmeta3, Hmeta2.
Qed.

(** C10.  Division by zero on an empty sample: the metadata generator
    raises [ZeroDivisionError] for every sample frame without rows, before
    it writes anything; and a run reaches that branch whenever no case of
    the case index passes validation (here with all input tables
    readable). *)
Theorem empty_sample_division_by_zero :
  (∀ sample_df g f b a w,
     df_rows sample_df = [] →
     create_comprehensive_metadata sample_df g f b a w
     = (Raise ZeroDivisionError, w))
  ∧
  (∀ raw df gaze fixations boxes w,
     master_sheet_csv raw = Readable df →
     eye_gaze_csv raw = Readable gaze →
     fixations_csv raw = Readable fixations →
     bounding_boxes_csv raw = Readable boxes →
     validated raw df = [] →
     ∃ w', run_enhanced_sampling raw w = (Raise ZeroDivisionError, w') ∧
           comprehensive_sample_metadata (output_dir w')
           = comprehensive_sample_metadata (output_dir w)).
Proof.
  split.
  - intros. by apply create_comprehensive_metadata_empty.
  - intros. by eapply run_without_complete_case.
Qed.

Lemma validate_without_fixations raw l :
  fixations_csv raw = Absent → validate_data_completeness raw l = [].
Proof.
  intros Hf. apply elem_of_nil_inv. intros id Hin.
  apply validated_complete in Hin as (_ & _ & _ & Hq).
  by rewrite Hf in Hq.
Qed.

Lemma sample_gaze_data_without_fixations raw sample_df gaze w :
  fixations_csv raw = Absent → eye_gaze_csv raw = Readable gaze →
  ∃ n w', sample_gaze_data raw sample_df w = (Ok (n, 0%nat), w') ∧
          fixations_sample (output_dir w') = fixations_sample (output_dir w).
Proof.
  intros Hf Hg. unfold sample_gaze_data. rewrite Hg, Hf.
  unfold bind, write_gaze, write_out, ret.
  destruct (filter_chunks _ _); simpl; by eexists _, _.
Qed.

(** [chunk_size] is bound in the branch for eye_gaze.csv only: without that
    file the extraction of an existing fixation table stops with an
    [UnboundLocalError] before it reads or writes anything. *)
Lemma sample_gaze_data_without_gaze_file raw sample_df w :
  eye_gaze_csv raw = Absent → fixations_csv raw ≠ Absent →
  sample_gaze_data raw sample_df w = (Raise (UnboundLocalError "chunk_size"), w).
Proof.
  intros Hg Hf. unfold sample_gaze_data. rewrite Hg.
  unfold bind, ret, raise. simpl. by destruct (fixations_csv raw).
Qed.

(** C5 (amended).  Missing input files: a missing master sheet aborts the
    run with a [FileNotFoundError] whose message names the file.  A missing
    bounding-box table does not: the bounding-box step returns 0 records and
    changes nothing.  A missing fixation table is not reported either: the
    validator then finds no complete case, and the extraction of the gaze
    and fixation tables returns 0 fixation records and writes no fixation
    file. *)
Theorem missing_input_files raw :
  (master_sheet_csv raw = Absent →
   ∀ w, run_enhanced_sampling raw w
        = (Raise (FileNotFoundError
                    ("Master sheet not found: " ++ master_file raw)%string),
           w))
  ∧ (bounding_boxes_csv raw = Absent →
     ∀ sample_df w, sample_bounding_boxes raw sample_df w = (Ok 0%nat, w))
  ∧ (fixations_csv raw = Absent →
     (∀ l, validate_data_completeness raw l = []) ∧
     ∀ gaze sample_df w,
       eye_gaze_csv raw = Readable gaze →
       ∃ n w', sample_gaze_data raw sample_df w = (Ok (n, 0%nat), w') ∧
               fixations_sample (output_dir w')
               = fixations_sample (output_dir w)).
Proof.
  repeat split.
  - intros Hm w. unfold run_enhanced_sampling.
    erewrite bind_raise; [done |].
    unfold load_master_sheet. by rewrite Hm.
  - intros Hb sample_df w. unfold sample_bounding_boxes. by rewrite Hb.
  - intros l. by apply validate_without_fixations.
  - intros gaze sample_df w Hg.
    by apply (sample_gaze_data_without_fixations raw sample_df gaze).
Qed.

(** ** Further properties of the completeness validator *)

Lemma quick_check_prefix f id :
  quick_check f id = true ↔
  ∃ rows, f = Readable rows ∧ id ∈ DICOM_ID <$> take 1000 rows.
Proof.
  destruct f as [| | rows]; simpl.
  - split; [done | by intros (? & ? & _)].
  - split; [done | by intros (? & ? & _)].
  - rewrite bool_decide_eq_true. split.
    + intros Hin. by exists rows.
    + by intros (rows' & [= <-] & Hin).
Qed.

(** X1.  The validator keeps exactly the identifiers of its input that have
    an entry in the transcripts directory and occur among the first 1000
    rows of a readable eye_gaze.csv and of a readable fixations.csv, and it
    keeps them in the order of the input. *)
Theorem validate_data_completeness_exact raw l :
  (∀ id,
     id ∈ validate_data_completeness raw l ↔
     id ∈ l ∧ id ∈ available_audio raw ∧
     (∃ rows, eye_gaze_csv raw = Readable rows
              ∧ id ∈ DICOM_ID <$> take 1000 rows) ∧
     (∃ rows, fixations_csv raw = Readable rows
              ∧ id ∈ DICOM_ID <$> take 1000 rows))
  ∧ validate_data_completeness raw l `sublist_of` l.
Proof.
  split.
  - intros id. rewrite validated_complete. unfold is_complete.
    by rewrite !quick_check_prefix.
  - rewrite validate_filter. apply sublist_filter.
Qed.

(** X2.  The verdict on an identifier does not depend on the other
    identifiers of the call: validating a concatenation is validating the
    parts, and validating the result again changes nothing. *)
Theorem validate_data_completeness_batches raw l1 l2 :
  validate_data_completeness raw (l1 ++ l2)
  = validate_data_completeness raw l1 ++ validate_data_completeness raw l2
  ∧ validate_data_completeness raw (validate_data_completeness raw l1)
    = validate_data_completeness raw l1.
Proof.
  rewrite !validate_filter. split; [apply filter_app |].
  apply filter_all. by intros id [? _]%list_elem_of_filter.
Qed.

(** X3.  When the transcripts directory is missing, or eye_gaze.csv or
    fixations.csv is missing or cannot be parsed, the validator raises
    nothing and finds no complete case. *)
Theorem validate_data_completeness_no_source raw l :
  audio_segmentation_transcripts raw = None ∨
  eye_gaze_csv raw = Absent ∨ eye_gaze_csv raw = Unreadable ∨
  fixations_csv raw = Absent ∨ fixations_csv raw = Unreadable →
  validate_data_completeness raw l = [].
Proof.
  intros Hsrc. apply elem_of_nil_inv. intros id Hin.
  apply validated_complete in Hin as (_ & Ha & Hg & Hf).
  unfold available_audio in Ha.
  destruct Hsrc as [H | [H | [H | [H | H]]]]; rewrite H in *; done.
Qed.

(** ** Further properties of the stratified sampler *)

Lemma combine_samples_negative D n samples w :
  n < 0 →
  combine_samples D n samples w
  = (Raise (ValueError "A negative number of rows requested."), w).
Proof.
  intros Hn. unfold combine_samples. destruct samples as [| s l].
  - apply bind_raise. unfold df_sample.
    destruct (Z.ltb_spec (Z.min n (df_len D)) 0); [done | lia].
  - erewrite bind_ok; [| reflexivity].
    pose proof (df_len_nonneg (pd_concat (s :: l))).
    destruct (Z.ltb_spec n (df_len (pd_concat (s :: l)))); [| lia].
    unfold df_sample. destruct (Z.ltb_spec n 0); [done | lia].
Qed.

Lemma selection_zero D : df_rows (selection D 0) = [].
Proof.
  unfold selection, combine_next.
  match goal with
  | |- context [0 <? df_len ?F] => destruct (Z.ltb_spec 0 (df_len F)) as [| H]
  end; [done |].
  unfold df_len in H. destruct (df_rows _); [done | simpl in H; lia].
Qed.

(** X4.  Targets that are not positive: a negative target makes
    [create_diverse_sample] raise the [ValueError] of pandas, whatever the
    data is, and the target 0 makes it return a frame without rows. *)
Theorem create_diverse_sample_small_target raw df n :
  (n < 0 →
   ∃ msg, ∀ w, create_diverse_sample raw df n w = (Raise (ValueError msg), w))
  ∧ (n = 0 →
     ∃ s, (∀ w, create_diverse_sample raw df n w = (Ok s, w)) ∧
          df_rows s = []).
Proof.
  split.
  - intros Hn. eexists. intros w. unfold create_diverse_sample.
    destruct (for_each_condition_yields 8 (complete_frame raw df)
                primary_conditions ([], ∅)) as (st1 & H1 & _); [lia |].
    erewrite bind_ok; [| apply H1].
    destruct (sample_complex_yields (complete_frame raw df) st1)
      as (st2 & H2 & _).
    erewrite bind_ok; [| apply H2].
    destruct (for_each_condition_yields 3 (complete_frame raw df)
                secondary_conditions st2) as (st3 & H3 & _); [lia |].
    erewrite bind_ok; [| apply H3].
    destruct (fill_remaining_yields (complete_frame raw df) n st3)
      as (st4 & H4 & _).
    erewrite bind_ok; [| apply H4].
    by apply combine_samples_negative.
  - intros ->.
    destruct (create_diverse_sample_yields raw df 0) as (s & Hs & ->); [lia |].
    eexists. split; [exact Hs | apply selection_zero].
Qed.

Lemma selection_exhaustive D n :
  perm_ok → NoDup (ids D) → df_len D ≤ n →
  ids (selection D n) ≡ₚ ids D.
Proof.
  intros Hp Hd Hn. pose proof (df_len_nonneg D).
  destruct (selection_size D n Hp Hd) as [Hnd Hlen]; [lia |].
  apply submseteq_length_Permutation.
  - apply NoDup_submseteq; [done |].
    intros x (r & -> & Hr)%list_elem_of_fmap.
    apply selection_from in Hr as (r0 & Hr0 & Hid & _).
    rewrite Hid. apply list_elem_of_fmap. eauto.
  - unfold ids, df_len in *. rewrite !length_fmap. lia.
Qed.

(** X5.  A pool that fits into the target is taken whole: when the case
    index has unique identifiers and no more validated cases than the
    target, the sample consists of exactly the validated cases, each once. *)
Theorem create_diverse_sample_exhaustive raw df n :
  perm_ok → NoDup (ids df) →
  Z.of_nat (length (validated raw df)) ≤ n →
  ∃ s, (∀ w, create_diverse_sample raw df n w = (Ok s, w)) ∧
       ids s ≡ₚ validated raw df.
Proof.
  intros Hp Hd Hn.
  destruct (create_diverse_sample_yields raw df n) as (s & Hs & ->); [lia |].
  eexists. split; [exact Hs |].
  rewrite <- complete_frame_ids. apply selection_exhaustive; [done | |].
  - by apply complete_frame_NoDup.
  - by rewrite complete_frame_len.
Qed.

Lemma origin_record D st F g n :
  (∀ r, r ∈ picked st → origin D r) →
  (∀ r, r ∈ df_rows F → origin D r) →
  ∀ r, r ∈ picked (record_sample st (draw g F n)) → origin D r.
Proof.
  intros Hst HF r. rewrite picked_record, elem_of_app.
  intros [Hr | Hr%draw_elem]; auto.
Qed.

Lemma condition_next_origin quota D st c :
  (∀ r, r ∈ picked st → origin D r) →
  ∀ r, r ∈ picked (condition_next quota D st c) → origin D r.
Proof.
  intros Hst. unfold condition_next. destruct (_ && _); [| done].
  apply origin_record; [done |].
  intros r Hr. unfold condition_frame in Hr. simpl in Hr.
  apply list_elem_of_filter in Hr as [_ Hr].
  apply list_elem_of_filter in Hr as [_ Hr]. by left.
Qed.

Lemma complex_next_origin D st :
  (∀ r, r ∈ picked st → origin D r) →
  ∀ r, r ∈ picked (complex_next D st) → origin D r.
Proof.
  intros Hst. unfold complex_next. destruct (0 <? _); [| done].
  apply origin_record; [done |].
  intros r Hr. unfold complex_frame in Hr. simpl in Hr.
  apply list_elem_of_filter in Hr as [Hc Hr].
  apply list_elem_of_fmap in Hr as (r0 & -> & Hr0).
  apply list_elem_of_filter in Hr0 as [_ Hr0].
  right. exists r0. split; [done |]. split; [| done].
  unfold complex in Hc. simpl in Hc. by rewrite lookup_insert_eq in Hc.
Qed.

Lemma fill_next_origin D n st :
  (∀ r, r ∈ picked st → origin D r) →
  ∀ r, r ∈ picked (fill_next D n st) → origin D r.
Proof.
  intros Hst. unfold fill_next. destruct (_ && _); [| done].
  apply origin_record; [done |].
  intros r Hr. simpl in Hr.
  apply list_elem_of_filter in Hr as [_ Hr]. by left.
Qed.

Lemma foldl_condition_next_origin quota D l st :
  (∀ r, r ∈ picked st → origin D r) →
  ∀ r, r ∈ picked (foldl (condition_next quota D) st l) → origin D r.
Proof.
  revert st. induction l as [| c l IH]; intros st Hst; simpl; [done |].
  by apply IH, condition_next_origin.
Qed.

Lemma selection_origin D n r :
  r ∈ df_rows (selection D n) → origin D r.
Proof.
  unfold selection, combine_next.
  set (st := fill_next D n (quota_state D)).
  assert (Hst : ∀ r, r ∈ picked st → origin D r).
  { apply fill_next_origin, foldl_condition_next_origin, complex_next_origin,
      foldl_condition_next_origin.
    intros r0 Hr0. by apply elem_of_nil in Hr0. }
  assert (Hfinal : ∀ r,
    r ∈ df_rows match st.1 with
                | _ :: _ => pd_concat st.1
                | [] => draw (seeded 42) D (Z.min n (df_len D))
                end → origin D r).
  { intros r0. destruct st.1 as [| s l] eqn:Hs.
    - intros Hr%draw_elem. by left.
    - intros Hr. apply Hst. unfold picked. by rewrite Hs. }
  destruct (n <? _); [| apply Hfinal].
  intros Hr%draw_elem. by apply Hfinal.
Qed.

(** X6.  The sampler does not alter the cases it selects: every row of the
    sample is a row of the case index whose identifier passed validation,
    either unchanged or, when the complex-case step drew it, with the cell
    [complexity] set to the sum of its condition columns, which is then at
    least 2. *)
Theorem create_diverse_sample_rows raw df n :
  0 ≤ n →
  ∃ s, (∀ w, create_diverse_sample raw df n w = (Ok s, w)) ∧
       ∀ r, r ∈ df_rows s →
         ∃ r0, r0 ∈ df_rows df ∧ dicom_id r0 ∈ validated raw df ∧
               (r = r0 ∨
                let v := row_sum (filter (λ col, col ∈ df_columns df)
                                    (primary_conditions ++ secondary_conditions))
                           r0 in
                2 ≤ v ∧ r = set_cell "complexity" v r0).
Proof.
  intros Hn.
  destruct (create_diverse_sample_yields raw df n Hn) as (s & Hs & ->).
  eexists. split; [exact Hs |].
  intros r Hr%selection_origin.
  assert (Hin : ∀ r0, r0 ∈ df_rows (complete_frame raw df) →
                      r0 ∈ df_rows df ∧ dicom_id r0 ∈ validated raw df).
  { intros r0 Hr0. split.
    - unfold complete_frame in Hr0. simpl in Hr0.
      by apply list_elem_of_filter in Hr0 as [_ ?].
    - rewrite <- complete_frame_ids. apply list_elem_of_fmap. eauto. }
  destruct Hr as [Hr | (r0 & Hr0 & Hv & ->)].
  - exists r. destruct (Hin r Hr). by repeat split; [| | left].
  - exists r0. destruct (Hin r0 Hr0). repeat split; [done | done |].
    right. by split.
Qed.

(** ** Further properties of the subset extraction *)

Lemma put_rows_some {A} (rows : list A) old :
  rows ≠ [] → put_rows rows old = Some rows.
Proof. by destruct rows. Qed.

(** The world after the extraction of two readable tables. *)
Lemma sample_gaze_data_exact raw sample_df gaze fixations w :
  eye_gaze_csv raw = Readable gaze →
  fixations_csv raw = Readable fixations →
  let S : gset string := list_to_set (ids sample_df) in
  let G := filter (selected S) gaze in
  let F := filter (selected S) fixations in
  sample_gaze_data raw sample_df w
  = (Ok (length G, length F),
     {| np_random := np_random w;
        output_dir := with_gaze_tables G F (output_dir w) |}).
Proof.
  intros Hg Hf S G F. destruct w as [g [m a eg fx bb md rp]].
  unfold sample_gaze_data. rewrite Hg, Hf. fold S.
  pose proof (extract_table S gaze) as HG.
  pose proof (extract_table S fixations) as HF.
  fold G in HG. fold F in HF.
  unfold bind, write_gaze, write_fixations, write_out, ret, with_gaze_tables.
  destruct (filter_chunks S (read_chunks _ gaze)) as [| cg lg]; simpl;
    destruct (filter_chunks S (read_chunks _ fixations)) as [| cf lf]; simpl.
  - by rewrite HG, HF.
  - destruct HF as [HF HFn]. simpl in HF.
    by rewrite HG, HF, (put_rows_some F) by done.
  - destruct HG as [HG HGn]. simpl in HG.
    by rewrite HF, HG, (put_rows_some G) by done.
  - destruct HG as [HG HGn], HF as [HF HFn]. simpl in HG, HF.
    by rewrite HG, HF, (put_rows_some G), (put_rows_some F) by done.
Qed.

Lemma sample_bounding_boxes_exact raw sample_df w :
  bounding_boxes_csv raw ≠ Unreadable →
  sample_bounding_boxes raw sample_df w
  = (Ok (length (default [] (selected_boxes raw sample_df))),
     {| np_random := np_random w;
        output_dir :=
          with_boxes (selected_boxes raw sample_df) (output_dir w) |}).
Proof.
  intros Hb. destruct w as [g [m a eg fx bb md rp]].
  unfold sample_bounding_boxes, selected_boxes.
  by destruct (bounding_boxes_csv raw).
Qed.

(** X7.  How [sample_gaze_data] fails.  Without both files it returns two
    zero counts and touches nothing.  Without eye_gaze.csv but with a
    fixations file it stops with [UnboundLocalError], because [chunk_size]
    is bound in the gaze branch only.  An eye_gaze.csv that cannot be parsed
    stops it before anything is written; a fixations.csv that cannot be
    parsed stops it after the gaze sample of a readable eye_gaze.csv has
    been written. *)
Theorem sample_gaze_data_failures raw sample_df w :
  (eye_gaze_csv raw = Absent → fixations_csv raw = Absent →
   sample_gaze_data raw sample_df w = (Ok (0%nat, 0%nat), w))
  ∧ (eye_gaze_csv raw = Absent → fixations_csv raw ≠ Absent →
     sample_gaze_data raw sample_df w
     = (Raise (UnboundLocalError "chunk_size"), w))
  ∧ (eye_gaze_csv raw = Unreadable →
     sample_gaze_data raw sample_df w = (Raise ParserError, w))
  ∧ (∀ gaze, eye_gaze_csv raw = Readable gaze →
       fixations_csv raw = Unreadable →
       sample_gaze_data raw sample_df w
       = (Raise ParserError,
          {| np_random := np_random w;
             output_dir :=
               with_gaze_tables
                 (filter (selected (list_to_set (ids sample_df))) gaze) []
                 (output_dir w) |})).
Proof.
  repeat split.
  - intros Hg Hf. unfold sample_gaze_data. by rewrite Hg, Hf.
  - intros Hg Hf. by apply sample_gaze_data_without_gaze_file.
  - intros Hg. unfold sample_gaze_data. by rewrite Hg.
  - intros gaze Hg Hf. destruct w as [g [m a eg fx bb md rp]].
    unfold sample_gaze_data. rewrite Hg, Hf.
    pose proof (extract_table (list_to_set (ids sample_df)) gaze) as HG.
    unfold bind, write_gaze, write_out, ret, raise, with_gaze_tables.
    destruct (filter_chunks _ (read_chunks _ gaze)) as [| cg lg]; simpl.
    + by rewrite HG.
    + destruct HG as [HG HGn]. simpl in HG.
      by rewrite HG, put_rows_some by done.
Qed.

(** X8.  A sample that matches no row of a table: [sample_gaze_data]
    returns the count 0 for that table and does not write its file, so a
    file left by an earlier run stays as it is. *)
Theorem sample_gaze_data_no_match raw sample_df gaze fixations w :
  eye_gaze_csv raw = Readable gaze →
  fixations_csv raw = Readable fixations →
  (∀ r, r ∈ gaze → DICOM_ID r ∉ ids sample_df) →
  ∃ fixation_records w',
    sample_gaze_data raw sample_df w = (Ok (0%nat, fixation_records), w') ∧
    eye_gaze_sample (output_dir w') = eye_gaze_sample (output_dir w).
Proof.
  intros Hg Hf Hno.
  rewrite (sample_gaze_data_exact raw sample_df gaze fixations w Hg Hf).
  assert (HG : filter (selected (list_to_set (ids sample_df))) gaze = []).
  { apply elem_of_nil_inv. intros r [Hsel Hr]%list_elem_of_filter.
    unfold selected in Hsel. apply elem_of_list_to_set in Hsel.
    by apply (Hno r). }
  rewrite HG. by eexists _, _.
Qed.

(** X9.  [sample_bounding_boxes] writes its file whenever the table can be
    read: a sample that matches no bounding box gives the count 0 and an
    empty table, which replaces whatever the file held before. *)
Theorem sample_bounding_boxes_no_match raw sample_df boxes w :
  bounding_boxes_csv raw = Readable boxes →
  (∀ r, r ∈ boxes → bbox_dicom_id r ∉ ids sample_df) →
  ∃ w', sample_bounding_boxes raw sample_df w = (Ok 0%nat, w') ∧
        bounding_boxes_sample (output_dir w') = Some [].
Proof.
  intros Hb Hno.
  rewrite sample_bounding_boxes_exact by (by rewrite Hb).
  unfold selected_boxes. rewrite Hb.
  assert (HB : filter (λ r, bbox_dicom_id r ∈@{gset string}
                              list_to_set (ids sample_df)) boxes = []).
  { apply elem_of_nil_inv. intros r [Hsel Hr]%list_elem_of_filter.
    apply elem_of_list_to_set in Hsel. by apply (Hno r). }
  rewrite HB. by eexists.
Qed.

(** ** Properties of the transcript copy *)

Lemma with_audio_empty o : with_audio ∅ o = o.
Proof.
  destruct o. unfold with_audio. simpl. f_equal. apply (right_id_L ∅ (∪)).
Qed.

Lemma with_audio_twice s1 s2 o :
  with_audio s2 (with_audio s1 o) = with_audio (s1 ∪ s2) o.
Proof. unfold with_audio. simpl. f_equal. by rewrite (assoc_L (∪)). Qed.

(** The loop of [copy_audio_transcripts], from any count and any world. *)
Lemma copy_audio_transcripts_exact raw sample_df w :
  copy_audio_transcripts raw sample_df w
  = (Ok (length (with_transcripts raw sample_df)),
     {| np_random := np_random w;
        output_dir :=
          with_audio (list_to_set (with_transcripts raw sample_df))
            (output_dir w) |}).
Proof.
  unfold copy_audio_transcripts, with_transcripts.
  match goal with
  | |- for_each ?b _ _ _ = _ => set (body := b)
  end.
  enough (Hloop : ∀ l (count : nat) w0,
    for_each body l count w0
    = (Ok (count + length (filter (λ id, id ∈ available_audio raw) l))%nat,
       {| np_random := np_random w0;
          output_dir :=
            with_audio
              (list_to_set (filter (λ id, id ∈ available_audio raw) l))
              (output_dir w0) |})) by apply Hloop.
  induction l as [| id l IH]; intros count w0.
  - simpl. rewrite with_audio_empty. destruct w0. simpl.
    unfold ret. by rewrite Nat.add_0_r.
  - cbn [for_each]. rewrite filter_cons.
    destruct (decide (id ∈ available_audio raw)) as [Hin | Hout].
    + erewrite bind_ok;
        [| unfold body; rewrite bool_decide_true by done; reflexivity].
      rewrite IH. simpl. rewrite Nat.add_succ_r. f_equal. f_equal.
      fold (with_audio {[id]} (output_dir w0)).
      by rewrite with_audio_twice.
    + erewrite bind_ok;
        [| unfold body; rewrite bool_decide_false by done; reflexivity].
      by rewrite IH.
Qed.

(** X10.  [copy_audio_transcripts] never fails: a sampled case without a
    transcript directory is skipped.  It returns the number of sample rows
    whose case has a directory, adds exactly those cases to the copied
    directories, and leaves the generator and every other output alone. *)
Theorem copy_audio_transcripts_counts raw sample_df w :
  ∃ w',
    copy_audio_transcripts raw sample_df w
    = (Ok (length (with_transcripts raw sample_df)), w') ∧
    (length (with_transcripts raw sample_df) ≤ length (df_rows sample_df))%nat ∧
    (∀ id, id ∈ audio_copied (output_dir w') ↔
           id ∈ audio_copied (output_dir w) ∨
           (id ∈ ids sample_df ∧ id ∈ available_audio raw)) ∧
    np_random w' = np_random w ∧
    master_sheet_sample (output_dir w') = master_sheet_sample (output_dir w) ∧
    eye_gaze_sample (output_dir w') = eye_gaze_sample (output_dir w) ∧
    fixations_sample (output_dir w') = fixations_sample (output_dir w) ∧
    bounding_boxes_sample (output_dir w')
      = bounding_boxes_sample (output_dir w) ∧
    comprehensive_sample_metadata (output_dir w')
      = comprehensive_sample_metadata (output_dir w).
Proof.
  eexists. split; [apply copy_audio_transcripts_exact |].
  split.
  { unfold with_transcripts, ids.
    etransitivity; [apply length_filter |]. by rewrite length_fmap. }
  split; [| done].
  intros id. simpl. rewrite elem_of_union, elem_of_list_to_set.
  unfold with_transcripts. rewrite list_elem_of_filter. tauto.
Qed.

Lemma with_transcripts_all raw sample_df :
  (∀ id, id ∈ ids sample_df → id ∈ available_audio raw) →
  with_transcripts raw sample_df = ids sample_df.
Proof. intros Hall. by apply filter_all. Qed.

Lemma validated_has_transcript raw df id :
  id ∈ validated raw df → id ∈ available_audio raw.
Proof. by intros (_ & Ha & _)%validated_complete. Qed.

(** X11.  Every case of a sample drawn by [create_diverse_sample] has a
    transcript directory, so the copy that follows skips none: its count is
    the size of the sample. *)
Theorem sample_transcripts_complete raw df n :
  0 ≤ n →
  ∃ s, (∀ w, create_diverse_sample raw df n w = (Ok s, w)) ∧
       ∀ w, ∃ w',
         copy_audio_transcripts raw s w = (Ok (length (df_rows s)), w') ∧
         audio_copied (output_dir w')
         = audio_copied (output_dir w) ∪ list_to_set (ids s).
Proof.
  intros Hn.
  destruct (create_diverse_sample_yields raw df n Hn) as (s & Hs & ->).
  set (s := selection (complete_frame raw df) n).
  assert (Hall : with_transcripts raw s = ids s).
  { apply with_transcripts_all. intros id (r & -> & Hr)%list_elem_of_fmap.
    apply selection_from in Hr as (r0 & Hr0 & Hid & _).
    apply (validated_has_transcript raw df).
    rewrite Hid, <- complete_frame_ids. apply list_elem_of_fmap. eauto. }
  exists s. split; [exact Hs |].
  intros w. eexists. rewrite copy_audio_transcripts_exact, Hall.
  unfold ids. rewrite length_fmap. by split.
Qed.

(** ** Properties of the metadata generator *)



Lemma conditions_not_derived c :
  c ∈ primary_conditions ++ secondary_conditions →
  c ≠ "condition_count" ∧ c ≠ "complexity".
Proof.
  unfold primary_conditions, secondary_conditions. simpl. intros Hc.
  repeat (apply elem_of_cons in Hc as [-> | Hc]); [done.. |].
  by apply elem_of_nil in Hc.
Qed.

Lemma filter_ext_in {A} (P Q : A → Prop) `{!∀ x, Decision (P x)}
    `{!∀ x, Decision (Q x)} (l : list A) :
  (∀ x, x ∈ l → P x ↔ Q x) → filter P l = filter Q l.
Proof.
  induction l as [| x l IH]; intros Hext; [done |].
  rewrite !filter_cons.
  assert (Hx : P x ↔ Q x) by (apply Hext; left).
  rewrite IH by (intros y Hy; apply Hext; by right).
  destruct (decide (P x)), (decide (Q x)); tauto.
Qed.

Lemma col_sum_binary c df :
  c ∈ primary_conditions ++ secondary_conditions →
  binary_flags (df_rows df) →
  col_sum c df = Z.of_nat (count_positive c (df_rows df)).
Proof.
  intros Hc. unfold col_sum, count_positive.
  induction (df_rows df) as [| r rows IH]; intros Hbin; [done |].
  cbn [foldr]. rewrite filter_cons, IH.
  - destruct (findings r !! c) as [v |] eqn:Hv; simpl.
    + assert (Hr : r ∈ r :: rows) by left.
      destruct (Hbin r c v Hr Hc Hv) as [-> | ->].
      * rewrite decide_False by (unfold positive; by rewrite Hv). lia.
      * rewrite decide_True by done. simpl length. lia.
    + rewrite decide_False by (unfold positive; by rewrite Hv). lia.
  - intros r' c' v' Hr'. apply Hbin. by right.
Qed.

Lemma row_sum_binary cols r :
  (∀ c v, c ∈ cols → findings r !! c = Some v → v = 0 ∨ v = 1) →
  row_sum cols r = Z.of_nat (length (filter (λ c, positive c r) cols)).
Proof.
  unfold row_sum. induction cols as [| c cols IH]; intros Hbin; [done |].
  cbn [foldr]. rewrite filter_cons, IH.
  - destruct (findings r !! c) as [v |] eqn:Hv; simpl.
    + assert (Hc : c ∈ c :: cols) by left.
      destruct (Hbin c v Hc Hv) as [-> | ->].
      * rewrite decide_False by (unfold positive; by rewrite Hv). lia.
      * rewrite decide_True by done. simpl length. lia.
    + rewrite decide_False by (unfold positive; by rewrite Hv). lia.
  - intros c' v' Hc'. apply Hbin. by right.
Qed.

(** What the generator returns and writes for a sample with rows. *)
Lemma create_comprehensive_metadata_ok sample_df g f b a w :
  df_rows sample_df ≠ [] →
  let all_conditions := primary_conditions ++ secondary_conditions in
  let available := filter (λ c, c ∈ df_columns sample_df) all_conditions in
  let df' := df_assign "condition_count" (row_sum available) sample_df in
  ∃ md,
    create_comprehensive_metadata sample_df g f b a w
    = (Ok (md, df'),
       {| np_random := np_random w;
          output_dir :=
            {| master_sheet_sample := master_sheet_sample (output_dir w);
               audio_copied := audio_copied (output_dir w);
               eye_gaze_sample := eye_gaze_sample (output_dir w);
               fixations_sample := fixations_sample (output_dir w);
               bounding_boxes_sample := bounding_boxes_sample (output_dir w);
               comprehensive_sample_metadata := Some md;
               detailed_sampling_summary :=
                 detailed_sampling_summary (output_dir w) |} |}) ∧
    total_studies md = length (df_rows sample_df) ∧
    sampled_studies md = ids sample_df ∧
    md_audio_transcripts md = a ∧
    md_gaze_records md = g ∧
    md_fixation_records md = f ∧
    md_bounding_box_records md = b ∧
    completeness_rate md
    = QArith_base.Qmake (Z.of_nat a * 100)
        (Pos.of_nat (length (df_rows sample_df))) ∧
    gender_distribution md = value_counts (gender <$> df_rows sample_df) ∧
    age_distribution md = value_counts (anchor_age <$> df_rows sample_df) ∧
    complexity_distribution md
    = value_counts (row_sum available <$> df_rows sample_df) ∧
    clinical_conditions md
    = (λ c, (c, col_sum c sample_df)) <$> available ∧
    study_details md
    = (λ row,
         {| sd_dicom_id := dicom_id row;
            sd_gender := gender row;
            sd_age := anchor_age row;
            sd_conditions :=
              filter (λ cond, cond ∈ df_columns df' ∧ positive cond row)
                all_conditions;
            sd_condition_count := condition_count row |})
        <$> df_rows df' ∧
    studies_with_single_condition md
    = default 0%nat (complexity_distribution md !! 1) ∧
    studies_with_multiple_conditions md
    = map_fold (λ k v acc, if 1 <? k then (v + acc)%nat else acc) 0%nat
        (complexity_distribution md).
Proof.
  intros Hrows all_conditions available df'.
  unfold create_comprehensive_metadata. fold all_conditions available df'.
  assert (Hlen : length (df_rows df') = length (df_rows sample_df)).
  { unfold df', df_assign. simpl. by rewrite length_fmap. }
  assert (Hcc : condition_count <$> df_rows df'
                = row_sum available <$> df_rows sample_df).
  { unfold df', df_assign. simpl. rewrite <- list_fmap_compose.
    apply list_fmap_ext. intros i r _. unfold condition_count. simpl.
    by rewrite lookup_insert_eq. }
  assert (Hg : gender <$> df_rows df' = gender <$> df_rows sample_df).
  { unfold df', df_assign. simpl. by rewrite <- list_fmap_compose. }
  assert (Ha : anchor_age <$> df_rows df' = anchor_age <$> df_rows sample_df).
  { unfold df', df_assign. simpl. by rewrite <- list_fmap_compose. }
  assert (Hi : ids df' = ids sample_df).
  { unfold ids, df', df_assign. simpl. by rewrite <- list_fmap_compose. }
  unfold rate. rewrite Hlen.
  destruct (length (df_rows sample_df)) as [| k] eqn:Hk.
  { destruct (df_rows sample_df); [done | discriminate]. }
  eexists. split; [unfold bind, ret, write_out; reflexivity |].
  cbn [total_studies sampled_studies md_audio_transcripts md_gaze_records
       md_fixation_records md_bounding_box_records completeness_rate
       gender_distribution age_distribution complexity_distribution
       clinical_conditions study_details studies_with_single_condition
       studies_with_multiple_conditions].
  rewrite Hcc, Hg, Ha, Hi. by repeat split.
Qed.



(** X13.  With condition cells that are 0, 1 or NaN the counts in the
    metadata mean what their names say: the entry of a condition is the
    number of sampled studies positive for it, and the [condition_count] of
    a study is the number of conditions listed for it. *)
Theorem create_comprehensive_metadata_counts sample_df g f b a w :
  df_rows sample_df ≠ [] →
  binary_flags (df_rows sample_df) →
  ∃ md df' w',
    create_comprehensive_metadata sample_df g f b a w = (Ok (md, df'), w') ∧
    (∀ c v, (c, v) ∈ clinical_conditions md →
            c ∈ df_columns sample_df ∧
            v = Z.of_nat (count_positive c (df_rows sample_df))) ∧
    (∀ d, d ∈ study_details md →
          sd_condition_count d = Z.of_nat (length (sd_conditions d))).
Proof.
  intros Hrows Hbin.
  destruct (create_comprehensive_metadata_ok sample_df g f b a w Hrows)
    as (md & Hrun & _ & _ & _ & _ & _ & _ & _ & _ & _ & _ & Hcc & Hsd & _).
  eexists md, _, _. split; [exact Hrun |]. split.
  - intros c v. rewrite Hcc. intros (c' & [= -> ->] & Hc')%list_elem_of_fmap.
    apply list_elem_of_filter in Hc' as [Hcol Hall].
    split; [done |]. by apply col_sum_binary.
  - intros d. rewrite Hsd. intros (row' & -> & Hrow')%list_elem_of_fmap.
    unfold df_assign in Hrow'. simpl in Hrow'.
    apply list_elem_of_fmap in Hrow' as (r & -> & Hr).
    cbn [sd_condition_count sd_conditions].
    unfold condition_count. simpl findings. rewrite lookup_insert_eq. simpl.
    rewrite row_sum_binary.
    + do 2 f_equal. rewrite list_filter_filter.
      apply filter_ext_in. intros c Hc.
      destruct (conditions_not_derived c Hc) as [Hne _].
      unfold positive. simpl. rewrite lookup_insert_ne by done.
      unfold df_assign. simpl. case_bool_decide; [tauto |].
      rewrite elem_of_app, list_elem_of_singleton. tauto.
    + intros c v [_ Hc]%list_elem_of_filter Hv. by apply (Hbin r c v).
Qed.

(** ** Properties of the run *)

Lemma with_gaze_tables_none o : with_gaze_tables [] [] o = o.
Proof. by destruct o. Qed.

Lemma selection_nonempty raw df :
  perm_ok → NoDup (ids df) → validated raw df ≠ [] →
  df_rows (selection (complete_frame raw df) sample_size) ≠ [] ∧
  df_len (selection (complete_frame raw df) sample_size)
  = Z.min 50 (Z.of_nat (length (validated raw df))).
Proof.
  intros Hp Hd Hv.
  destruct (selection_size (complete_frame raw df) sample_size Hp
              (complete_frame_NoDup raw df Hd)) as [_ Hlen]; [done |].
  rewrite complete_frame_len in Hlen. split; [| exact Hlen].
  intros Hnil. unfold df_len in Hlen. rewrite Hnil in Hlen.
  destruct (validated raw df); [done |]. simpl in Hlen. unfold sample_size in Hlen.
  lia.
Qed.

Lemma selection_transcripts raw df n :
  with_transcripts raw (selection (complete_frame raw df) n)
  = ids (selection (complete_frame raw df) n).
Proof.
  apply with_transcripts_all. intros id (r & -> & Hr)%list_elem_of_fmap.
  apply selection_from in Hr as (r0 & Hr0 & Hid & _).
  apply (validated_has_transcript raw df).
  rewrite Hid, <- complete_frame_ids. apply list_elem_of_fmap. eauto.
Qed.

Lemma full_rate (n : nat) :
  n ≠ 0%nat →
  QArith_base.Qeq
    (QArith_base.Qmake (Z.of_nat n * 100) (Pos.of_nat n))
    (QArith_base.inject_Z 100).
Proof.
  intros Hn. unfold QArith_base.Qeq, QArith_base.inject_Z. simpl.
  rewrite <- (positive_nat_Z (Pos.of_nat n)), Nat2Pos.id by done. lia.
Qed.

(** X14.  A run that succeeds.  With a generator that returns permutations,
    a readable master sheet with unique identifiers and at least one
    validated case, readable gaze and fixation tables, and a bounding-box
    table that is readable or missing, the run returns the sample with its
    [condition_count] column and the metadata.  The metadata counts
    [min 50 validated] studies, every one of them validated and with its
    transcripts copied, so the completeness rate is always 100; the record
    counts are the numbers of table rows of the sampled cases.  The output
    directory then holds the sample as drawn, the copied transcript
    directories, the extracted tables, the metadata and the report. *)
Theorem run_enhanced_sampling_succeeds raw df gaze fixations w :
  perm_ok →
  master_sheet_csv raw = Readable df →
  NoDup (ids df) →
  validated raw df ≠ [] →
  eye_gaze_csv raw = Readable gaze →
  fixations_csv raw = Readable fixations →
  bounding_boxes_csv raw ≠ Unreadable →
  ∃ s md df',
    (∀ w0, create_diverse_sample raw df sample_size w0 = (Ok s, w0)) ∧
    let S : gset string := list_to_set (ids s) in
    let G := filter (selected S) gaze in
    let F := filter (selected S) fixations in
    run_enhanced_sampling raw w
    = (Ok (df', md),
       {| np_random := np_random w;
          output_dir :=
            with_report md
              (with_boxes (selected_boxes raw s)
                 (with_gaze_tables G F
                    (with_audio S (with_master s (output_dir w))))) |}) ∧
    ids df' = ids s ∧
    sampled_studies md = ids s ∧
    (∀ id, id ∈ sampled_studies md → id ∈ validated raw df) ∧
    Z.of_nat (total_studies md)
    = Z.min 50 (Z.of_nat (length (validated raw df))) ∧
    md_audio_transcripts md = total_studies md ∧
    QArith_base.Qeq (completeness_rate md) (QArith_base.inject_Z 100) ∧
    md_gaze_records md = length G ∧
    md_fixation_records md = length F ∧
    md_bounding_box_records md
    = length (default [] (selected_boxes raw s)).
Proof.
  intros Hp Hm Hd Hv Hg Hf Hb.
  destruct (create_diverse_sample_yields raw df sample_size)
    as (s & Hs & ->); [done |].
  set (s := selection (complete_frame raw df) sample_size) in *.
  destruct (selection_nonempty raw df Hp Hd Hv) as [Hrows Hlen].
  fold s in Hrows, Hlen.
  assert (Hcopy : ∀ w0,
    copy_audio_transcripts raw s w0
    = (Ok (length (df_rows s)),
       {| np_random := np_random w0;
          output_dir := with_audio (list_to_set (ids s)) (output_dir w0) |})).
  { intros w0. rewrite copy_audio_transcripts_exact. unfold s.
    rewrite selection_transcripts. unfold ids. by rewrite length_fmap. }
  destruct (create_comprehensive_metadata_ok s
              (length (filter (selected (list_to_set (ids s))) gaze))
              (length (filter (selected (list_to_set (ids s))) fixations))
              (length (default [] (selected_boxes raw s)))
              (length (df_rows s))
              {| np_random := np_random w;
                 output_dir :=
                   with_boxes (selected_boxes raw s)
                     (with_gaze_tables
                        (filter (selected (list_to_set (ids s))) gaze)
                        (filter (selected (list_to_set (ids s))) fixations)
                        (with_audio (list_to_set (ids s))
                           (with_master s (output_dir w)))) |} Hrows)
    as (md & Hmd & Htot & Hids & Haud & Hgz & Hfx & Hbx & Hrate & _).
  exists s, md. eexists. split; [exact Hs |].
  cbv zeta. split.
  - unfold run_enhanced_sampling.
    erewrite bind_ok; [| unfold load_master_sheet; by rewrite Hm].
    erewrite bind_ok; [| apply Hs].
    erewrite bind_ok; [| reflexivity].
    erewrite bind_ok; [| apply Hcopy].
    erewrite bind_ok; [| by apply (sample_gaze_data_exact raw s gaze fixations)].
    erewrite bind_ok; [| by apply sample_bounding_boxes_exact].
    erewrite bind_ok; [| apply Hmd].
    reflexivity.
  - split.
    { unfold ids, df_assign. simpl. by rewrite <- list_fmap_compose. }
    split; [done |]. split.
    { intros id. rewrite Hids. intros (r & -> & Hr)%list_elem_of_fmap.
      apply selection_from in Hr as (r0 & Hr0 & Hid & _).
      rewrite Hid, <- complete_frame_ids. apply list_elem_of_fmap. eauto. }
    split; [rewrite Htot; exact Hlen |].
    split; [by rewrite Haud, Htot |].
    split; [| done].
    rewrite Hrate. apply full_rate. by destruct (df_rows s).
Qed.

Lemma validate_without_gaze raw l :
  eye_gaze_csv raw = Absent → validate_data_completeness raw l = [].
Proof.
  intros Hg. apply elem_of_nil_inv. intros id Hin.
  apply validated_complete in Hin as (_ & _ & Hq & _).
  by rewrite Hg in Hq.
Qed.

Lemma filter_selected_none sample_df (rows : list gaze_row) :
  df_rows sample_df = [] →
  filter (selected (list_to_set (ids sample_df))) rows = [].
Proof.
  intros Hrows. apply elem_of_nil_inv. intros r [Hsel _]%list_elem_of_filter.
  unfold selected, ids in Hsel. rewrite Hrows in Hsel.
  by apply not_elem_of_empty in Hsel.
Qed.

Lemma selected_boxes_none raw sample_df boxes :
  df_rows sample_df = [] →
  bounding_boxes_csv raw = Readable boxes →
  selected_boxes raw sample_df = Some [].
Proof.
  intros Hrows Hb. unfold selected_boxes. rewrite Hb. f_equal.
  apply elem_of_nil_inv. intros r [Hsel _]%list_elem_of_filter.
  unfold ids in Hsel. rewrite Hrows in Hsel.
  by apply not_elem_of_empty in Hsel.
Qed.

(** X15.  What a run without a validated case leaves behind.  It stops in
    the metadata generator with [ZeroDivisionError], after it has written a
    master-sheet sample without rows and, when the bounding-box table can be
    read, an empty bounding-box sample; the gaze and fixation samples, the
    copied transcripts, the metadata and the report are as they were before
    the run. *)
Theorem run_enhanced_sampling_empty_leftovers raw df gaze fixations w :
  master_sheet_csv raw = Readable df →
  eye_gaze_csv raw = Readable gaze →
  fixations_csv raw = Readable fixations →
  bounding_boxes_csv raw ≠ Unreadable →
  validated raw df = [] →
  ∃ s,
    df_rows s = [] ∧
    run_enhanced_sampling raw w
    = (Raise ZeroDivisionError,
       {| np_random := np_random w;
          output_dir :=
            with_boxes (selected_boxes raw s)
              (with_master s (output_dir w)) |}) ∧
    (∀ boxes, bounding_boxes_csv raw = Readable boxes →
              selected_boxes raw s = Some []).
Proof.
  intros Hm Hg Hf Hb Hv.
  destruct (create_diverse_sample_yields raw df sample_size)
    as (s & Hs & ->); [done |].
  set (s := selection (complete_frame raw df) sample_size) in *.
  assert (Hrows : df_rows s = []).
  { by apply selection_empty, complete_frame_empty. }
  exists s. split; [done |]. split.
  - unfold run_enhanced_sampling.
    erewrite bind_ok; [| unfold load_master_sheet; by rewrite Hm].
    erewrite bind_ok; [| apply Hs].
    erewrite bind_ok; [| reflexivity].
    erewrite bind_ok; [| by apply copy_audio_transcripts_empty].
    erewrite bind_ok;
      [| by apply (sample_gaze_data_exact raw s gaze fixations)].
    rewrite !filter_selected_none by done.
    erewrite bind_ok; [| by apply sample_bounding_boxes_exact].
    erewrite bind_raise; [| by apply create_comprehensive_metadata_empty].
    simpl. by rewrite with_gaze_tables_none.
  - intros boxes Hboxes. by apply (selected_boxes_none raw s boxes).
Qed.

(** X16.  A run on a dataset that has fixations.csv but no eye_gaze.csv:
    no case can pass validation, the master-sheet sample is written without
    rows, and the run then stops in the extraction with
    [UnboundLocalError], before the bounding boxes, the metadata and the
    report. *)
Theorem run_enhanced_sampling_without_gaze_file raw df w :
  master_sheet_csv raw = Readable df →
  eye_gaze_csv raw = Absent →
  fixations_csv raw ≠ Absent →
  ∃ s,
    df_rows s = [] ∧
    run_enhanced_sampling raw w
    = (Raise (UnboundLocalError "chunk_size"),
       {| np_random := np_random w;
          output_dir := with_master s (output_dir w) |}).
Proof.
  intros Hm Hg Hf.
  destruct (create_diverse_sample_yields raw df sample_size)
    as (s & Hs & ->); [done |].
  set (s := selection (complete_frame raw df) sample_size) in *.
  assert (Hrows : df_rows s = []).
  { apply selection_empty, complete_frame_empty.
    by apply validate_without_gaze. }
  exists s. split; [done |].
  unfold run_enhanced_sampling.
  erewrite bind_ok; [| unfold load_master_sheet; by rewrite Hm].
  erewrite bind_ok; [| apply Hs].
  erewrite bind_ok; [| reflexivity].
  erewrite bind_ok; [| by apply copy_audio_transcripts_empty].
  erewrite bind_raise; [| by apply sample_gaze_data_without_gaze_file].
  reflexivity.
Qed.

End Sampler.

Arguments World RandomState : clear implicits.
Arguments Build_World {RandomState} np_random output_dir.
Arguments np_random {RandomState} w.
Arguments output_dir {RandomState} w.
Arguments perm_ok {RandomState} permutation.
Arguments df_sample {RandomState} seeded permutation df n random_state w.
Arguments create_diverse_sample {RandomState} seeded permutation raw df
  n_samples w.
Arguments sample_gaze_data {RandomState} raw sample_df w.
Arguments copy_audio_transcripts {RandomState} raw sample_df w.
Arguments sample_bounding_boxes {RandomState} raw sample_df w.
Arguments create_comprehensive_metadata {RandomState} sample_df gaze_records
  fixation_records bbox_records audio_count w.
Arguments run_enhanced_sampling {RandomState} seeded permutation raw w.

(** ** The example generator and the example datasets *)

Lemma rot_perm_ok : perm_ok rot_permutation.
Proof.
  intros g n. unfold rot_permutation, rotate. simpl.
  rewrite Permutation_app_comm. by rewrite take_drop.
Qed.

(** The world the examples start from. *)
Lemma normal_ids_NoDup : NoDup (ids normal_df).
Proof. by compute_done. Qed.

Lemma normal_complete_rows :
  df_rows (complete_frame normal_raw normal_df) = df_rows normal_df.
Proof. by vm_compute. Qed.

Lemma normal_only r c :
  r ∈ df_rows (complete_frame normal_raw normal_df) →
  positive "Normal" r →
  c ∈ primary_conditions ++ secondary_conditions → c ≠ "Normal" →
  ¬ positive c r.
Proof.
  rewrite normal_complete_rows. intros Hr _ Hc Hne Hpos.
  unfold normal_df, normal_ids in Hr. simpl in Hr.
  unfold primary_conditions, secondary_conditions in Hc. simpl in Hc.
  repeat (apply elem_of_cons in Hc as [-> | Hc]);
    try (by apply elem_of_nil in Hc); try done;
    repeat (apply elem_of_cons in Hr as [-> | Hr]);
    try (by apply elem_of_nil in Hr); by vm_compute in Hpos.
Qed.

(** Without a seed a draw would follow the process-wide generator: the same
    frame sampled in two worlds gives two different samples, while the
    seeded draw gives the same one. *)
Example df_sample_unseeded_depends_on_world :
  (df_sample rot_seeded rot_permutation normal_df 3 None
     (Build_World 0%nat empty_out)).1
  ≠ (df_sample rot_seeded rot_permutation normal_df 3 None
       (Build_World 1%nat empty_out)).1
  ∧ (df_sample rot_seeded rot_permutation normal_df 3 (Some 42)
       (Build_World 0%nat empty_out)).1
    = (df_sample rot_seeded rot_permutation normal_df 3 (Some 42)
         (Build_World 1%nat empty_out)).1.
Proof. split; [by vm_compute | reflexivity]. Qed.

(** ** The theorems at the example datasets *)

Lemma create_diverse_sample_size_witness :
  ∃ s, (∀ w, create_diverse_sample rot_seeded rot_permutation normal_raw
               normal_df 5 w = (Ok s, w)) ∧
       NoDup (ids s) ∧
       df_len s = Z.min 5 (Z.of_nat (length (validated normal_raw normal_df))) ∧
       df_len s ≤ 5.
Proof.
  apply (create_diverse_sample_size nat rot_seeded rot_permutation
           normal_raw normal_df 5).
  - apply rot_perm_ok.
  - apply normal_ids_NoDup.
  - lia.
Defined.

Lemma create_diverse_sample_validated_witness :
  ∃ s, (∀ w, create_diverse_sample rot_seeded rot_permutation normal_raw
               normal_df 5 w = (Ok s, w)) ∧
       ∀ id, id ∈ ids s → id ∈ validated normal_raw normal_df.
Proof.
  apply (create_diverse_sample_validated nat rot_seeded rot_permutation
           normal_raw normal_df 5).
  lia.
Defined.

Lemma validate_data_completeness_sound_witness :
  "early" ∈ validate_data_completeness late_raw ["early"; "late"] ∧
  (∃ listing, audio_segmentation_transcripts late_raw = Some listing
              ∧ "early" ∈ listing) ∧
  "late" ∉ validate_data_completeness silent_raw ["late"].
Proof.
  assert (Hin : "early" ∈ validate_data_completeness late_raw ["early"; "late"]).
  { vm_compute. left. }
  split; [exact Hin |]. split.
  - destruct (proj1 (validate_data_completeness_sound late_raw
                       ["early"; "late"] "early") Hin) as (_ & Hl & _).
    exact Hl.
  - apply (proj1 (proj2 (validate_data_completeness_sound silent_raw
                           ["late"] "late"))).
    unfold available_audio. simpl. apply not_elem_of_empty.
Defined.

Lemma subset_extraction_exact_witness :
  let S : gset string := list_to_set (ids late_sample) in
  ∃ G F B w1 w2,
    sample_gaze_data late_raw late_sample (Build_World 0%nat empty_out)
      = (Ok (length G, length F), w1) ∧
    sample_bounding_boxes late_raw late_sample w1 = (Ok (length B), w2) ∧
    eye_gaze_sample (output_dir w1) = put_rows G None ∧
    fixations_sample (output_dir w1) = put_rows F None ∧
    bounding_boxes_sample (output_dir w2) = Some B ∧
    (∀ r, r ∈ G → DICOM_ID r ∈ S) ∧
    (∀ r, r ∈ F → DICOM_ID r ∈ S) ∧
    (∀ r, r ∈ B → bbox_dicom_id r ∈ S) ∧
    G ≡ₚ filter (λ r, DICOM_ID r ∈ S) late_table ∧
    F ≡ₚ filter (λ r, DICOM_ID r ∈ S) late_table ∧
    B ≡ₚ filter (λ r, bbox_dicom_id r ∈ S) [].
Proof.
  apply (subset_extraction_exact nat late_raw late_sample late_table
           late_table [] (Build_World 0%nat empty_out));
    reflexivity.
Defined.

Lemma subset_extraction_order_witness :
  let S : gset string := list_to_set (ids late_sample) in
  let G :=
    concat (filter (selected S) <$> read_chunks (Z.to_nat 10000) late_table) in
  ∃ w1,
    sample_gaze_data late_raw late_sample (Build_World 0%nat empty_out)
      = (Ok (length G, length G), w1) ∧
    eye_gaze_sample (output_dir w1) = put_rows G None ∧
    fixations_sample (output_dir w1) = put_rows G None ∧
    G = filter (selected S) late_table ∧
    G = filter (selected S) late_table ∧
    G `sublist_of` late_table ∧
    G `sublist_of` late_table ∧
    ∀ c, c ∈ S →
      case_rows c G = case_rows c late_table ∧
      case_rows c G = case_rows c late_table.
Proof.
  apply (subset_extraction_order nat late_raw late_sample late_table
           late_table (Build_World 0%nat empty_out));
    reflexivity.
Defined.

Lemma primary_quota_lower_bound_witness :
  ∃ s, (∀ w, create_diverse_sample rot_seeded rot_permutation normal_raw
               normal_df 50 w = (Ok s, w)) ∧
       (8 ≤ count_positive "Normal" (df_rows s))%nat.
Proof.
  apply (primary_quota_lower_bound nat rot_seeded rot_permutation
           normal_raw normal_df "Normal" 50).
  - apply rot_perm_ok.
  - apply normal_ids_NoDup.
  - left.
  - unfold normal_df. simpl. do 3 right. left.
  - rewrite normal_complete_rows. vm_compute. lia.
  - apply normal_only.
  - lia.
Defined.

Lemma empty_sample_division_by_zero_witness :
  create_comprehensive_metadata (complete_frame silent_raw normal_df)
    0 0 0 0 (Build_World 0%nat empty_out)
  = (Raise ZeroDivisionError, Build_World 0%nat empty_out)
  ∧ ∃ w', run_enhanced_sampling rot_seeded rot_permutation silent_raw
            (Build_World 0%nat empty_out)
          = (Raise ZeroDivisionError, w') ∧
          comprehensive_sample_metadata (output_dir w') = None.
Proof.
  split.
  - apply (proj1 (empty_sample_division_by_zero nat rot_seeded rot_permutation)).
    reflexivity.
  - apply (proj2 (empty_sample_division_by_zero nat rot_seeded rot_permutation)
             silent_raw normal_df (mk_gaze <$> normal_ids)
             (mk_gaze <$> normal_ids) [] (Build_World 0%nat empty_out));
      reflexivity.
Defined.

Lemma missing_input_files_witness :
  (∀ w, run_enhanced_sampling rot_seeded rot_permutation gaze_only_raw w
        = (Raise (FileNotFoundError
                    "Master sheet not found: /data/egd-cxr/master_sheet.csv"),
           w))
  ∧ (∀ sample_df (w : World nat),
       sample_bounding_boxes gaze_only_raw sample_df w = (Ok 0%nat, w))
  ∧ (∀ l, validate_data_completeness gaze_only_raw l = [])
  ∧ ∃ n w',
      sample_gaze_data gaze_only_raw normal_df (Build_World 0%nat empty_out)
      = (Ok (n, 0%nat), w') ∧
      fixations_sample (output_dir w') = None.
Proof.
  destruct (missing_input_files nat rot_seeded rot_permutation gaze_only_raw)
    as (Hmaster & Hboxes & Hfix).
  destruct (Hfix eq_refl) as [Hval Hgaze].
  split; [exact (Hmaster eq_refl) |].
  split; [exact (Hboxes eq_refl) |].
  split; [exact Hval |].
  exact (Hgaze (mk_gaze <$> normal_ids) normal_df
           (Build_World 0%nat empty_out) eq_refl).
Defined.

(** ** Where the specification and the code differ *)

(** C5 as stated fails: without bounding_boxes.csv the run does not abort;
    it completes and returns the sample and its metadata, with zero
    bounding-box records. *)
Lemma missing_bounding_boxes_counterexample :
  bounding_boxes_csv no_boxes_raw = Absent ∧
  ∃ sample_df metadata w',
    run_enhanced_sampling rot_seeded rot_permutation no_boxes_raw
      (Build_World 0%nat empty_out)
    = (Ok (sample_df, metadata), w') ∧
    md_bounding_box_records metadata = 0%nat ∧
    bounding_boxes_sample (output_dir w') = None.
Proof.
  split; [reflexivity |].
  eexists _, _, _. split; [vm_compute; reflexivity |]. by split.
Qed.

(** C6 as stated fails: [Normal] has ten validated positive cases, none of
    them positive for another condition, so the pool exceeds the quota of
    eight; for the target 50 the sample has ten cases positive for [Normal],
    because the fill step draws the two cases the quota step left, and for
    the target 4 it has four, because the final down-sampling cuts into the
    quota. *)
Lemma primary_quota_exact_counterexample :
  "Normal" ∈ primary_conditions ∧
  (8 < count_positive "Normal"
         (df_rows (complete_frame normal_raw normal_df)))%nat ∧
  (∀ r c, r ∈ df_rows (complete_frame normal_raw normal_df) →
          positive "Normal" r →
          c ∈ primary_conditions ++ secondary_conditions → c ≠ "Normal" →
          ¬ positive c r) ∧
  (∃ s, create_diverse_sample rot_seeded rot_permutation normal_raw normal_df
          50 (Build_World 0%nat empty_out)
        = (Ok s, Build_World 0%nat empty_out) ∧
        count_positive "Normal" (df_rows s) = 10%nat ∧
        count_positive "Normal" (df_rows s) ≠ 8%nat) ∧
  (∃ s, create_diverse_sample rot_seeded rot_permutation normal_raw normal_df
          4 (Build_World 0%nat empty_out)
        = (Ok s, Build_World 0%nat empty_out) ∧
        count_positive "Normal" (df_rows s) = 4%nat ∧
        count_positive "Normal" (df_rows s) ≠ 8%nat).
Proof.
  split; [left |].
  split; [rewrite normal_complete_rows; vm_compute; lia |].
  split; [apply normal_only |].
  split; eexists; (split; [vm_compute; reflexivity |]);
    split; by vm_compute.
Qed.

(** ** The further properties at the example datasets *)

Lemma normal_binary : binary_flags (df_rows normal_df).
Proof.
  intros r c v Hr Hc Hv.
  unfold normal_df, normal_ids in Hr. simpl in Hr.
  unfold primary_conditions, secondary_conditions in Hc. simpl in Hc.
  repeat (apply elem_of_cons in Hc as [-> | Hc]);
    try (by apply elem_of_nil in Hc);
    repeat (apply elem_of_cons in Hr as [-> | Hr]);
    try (by apply elem_of_nil in Hr);
    vm_compute in Hv; try discriminate;
    injection Hv as <-; auto.
Qed.

Lemma normal_validated : validated normal_raw normal_df = normal_ids.
Proof. by vm_compute. Qed.

Lemma validate_data_completeness_no_source_witness :
  validate_data_completeness garbled_raw normal_ids = [].
Proof.
  apply (validate_data_completeness_no_source garbled_raw normal_ids).
  right. right. left. reflexivity.
Defined.

Lemma create_diverse_sample_small_target_witness :
  (∃ msg, ∀ w, create_diverse_sample rot_seeded rot_permutation normal_raw
                 normal_df (-1) w = (Raise (ValueError msg), w))
  ∧ ∃ s, (∀ w, create_diverse_sample rot_seeded rot_permutation normal_raw
                 normal_df 0 w = (Ok s, w)) ∧
         df_rows s = [].
Proof.
  split.
  - apply (proj1 (create_diverse_sample_small_target nat rot_seeded
                    rot_permutation normal_raw normal_df (-1))).
    lia.
  - apply (proj2 (create_diverse_sample_small_target nat rot_seeded
                    rot_permutation normal_raw normal_df 0)).
    reflexivity.
Defined.

Lemma create_diverse_sample_exhaustive_witness :
  ∃ s, (∀ w, create_diverse_sample rot_seeded rot_permutation normal_raw
               normal_df 50 w = (Ok s, w)) ∧
       ids s ≡ₚ validated normal_raw normal_df.
Proof.
  apply (create_diverse_sample_exhaustive nat rot_seeded rot_permutation
           normal_raw normal_df 50).
  - apply rot_perm_ok.
  - apply normal_ids_NoDup.
  - rewrite normal_validated. simpl. lia.
Defined.

Lemma create_diverse_sample_rows_witness :
  ∃ s, (∀ w, create_diverse_sample rot_seeded rot_permutation normal_raw
               normal_df 5 w = (Ok s, w)) ∧
       ∀ r, r ∈ df_rows s →
         ∃ r0, r0 ∈ df_rows normal_df ∧
               dicom_id r0 ∈ validated normal_raw normal_df ∧
               (r = r0 ∨
                let v := row_sum (filter (λ col, col ∈ df_columns normal_df)
                                    (primary_conditions ++ secondary_conditions))
                           r0 in
                2 ≤ v ∧ r = set_cell "complexity" v r0).
Proof.
  apply (create_diverse_sample_rows nat rot_seeded rot_permutation
           normal_raw normal_df 5).
  lia.
Defined.

Lemma sample_gaze_data_failures_witness :
  sample_gaze_data tables_absent_raw normal_df (Build_World 0%nat stale_out)
  = (Ok (0%nat, 0%nat), Build_World 0%nat stale_out)
  ∧ sample_gaze_data no_gaze_raw normal_df (Build_World 0%nat stale_out)
    = (Raise (UnboundLocalError "chunk_size"), Build_World 0%nat stale_out)
  ∧ sample_gaze_data garbled_raw normal_df (Build_World 0%nat stale_out)
    = (Raise ParserError, Build_World 0%nat stale_out)
  ∧ sample_gaze_data garbled_fixations_raw normal_df
      (Build_World 0%nat stale_out)
    = (Raise ParserError,
       Build_World 0%nat
         (with_gaze_tables
            (filter (selected (list_to_set (ids normal_df)))
               (mk_gaze <$> normal_ids)) [] stale_out)).
Proof.
  split; [| split; [| split]].
  - apply (proj1 (sample_gaze_data_failures nat tables_absent_raw normal_df
                    (Build_World 0%nat stale_out))); reflexivity.
  - apply (proj1 (proj2 (sample_gaze_data_failures nat no_gaze_raw normal_df
                           (Build_World 0%nat stale_out))));
      [reflexivity | discriminate].
  - apply (proj1 (proj2 (proj2 (sample_gaze_data_failures nat garbled_raw
                                  normal_df (Build_World 0%nat stale_out))))).
    reflexivity.
  - apply (proj2 (proj2 (proj2 (sample_gaze_data_failures nat
                                  garbled_fixations_raw normal_df
                                  (Build_World 0%nat stale_out))))
             (mk_gaze <$> normal_ids)); reflexivity.
Defined.

Lemma sample_gaze_data_no_match_witness :
  ∃ fixation_records w',
    sample_gaze_data normal_raw stranger_sample (Build_World 0%nat stale_out)
    = (Ok (0%nat, fixation_records), w') ∧
    eye_gaze_sample (output_dir w') = Some [mk_gaze "old"].
Proof.
  apply (sample_gaze_data_no_match nat normal_raw stranger_sample
           (mk_gaze <$> normal_ids) (mk_gaze <$> normal_ids)
           (Build_World 0%nat stale_out)); [reflexivity | reflexivity |].
  intros r Hr Hin. unfold stranger_sample, ids in Hin. simpl in Hin.
  apply list_elem_of_singleton in Hin.
  unfold normal_ids in Hr. simpl in Hr.
  repeat (apply elem_of_cons in Hr as [-> | Hr]; [discriminate |]).
  by apply elem_of_nil in Hr.
Defined.

Lemma sample_bounding_boxes_no_match_witness :
  ∃ w',
    sample_bounding_boxes boxed_raw stranger_sample
      (Build_World 0%nat stale_out) = (Ok 0%nat, w') ∧
    bounding_boxes_sample (output_dir w') = Some [].
Proof.
  apply (sample_bounding_boxes_no_match nat boxed_raw stranger_sample
           [{| bbox_dicom_id := "n0"; bbox_name := "Heart";
               bbox_coords := [0; 0; 1; 1] |}]
           (Build_World 0%nat stale_out)); [reflexivity |].
  intros r Hr Hin. unfold stranger_sample, ids in Hin. simpl in Hin.
  apply list_elem_of_singleton in Hin.
  apply list_elem_of_singleton in Hr. subst r. discriminate.
Defined.

Lemma sample_transcripts_complete_witness :
  ∃ s, (∀ w, create_diverse_sample rot_seeded rot_permutation normal_raw
               normal_df 5 w = (Ok s, w)) ∧
       ∀ w : World nat, ∃ w',
         copy_audio_transcripts normal_raw s w
         = (Ok (length (df_rows s)), w') ∧
         audio_copied (output_dir w')
         = audio_copied (output_dir w) ∪ list_to_set (ids s).
Proof.
  apply (sample_transcripts_complete nat rot_seeded rot_permutation
           normal_raw normal_df 5).
  lia.
Defined.


Lemma create_comprehensive_metadata_counts_witness :
  ∃ md df' w',
    create_comprehensive_metadata normal_df 10 10 0 10
      (Build_World 0%nat empty_out) = (Ok (md, df'), w') ∧
    (∀ d, d ∈ study_details md →
          sd_condition_count d = Z.of_nat (length (sd_conditions d))).
Proof.
  destruct (create_comprehensive_metadata_counts nat normal_df 10 10 0 10
              (Build_World 0%nat empty_out))
    as (md & df' & w' & Hrun & _ & Hd); [discriminate | apply normal_binary |].
  exists md, df', w'. split; [exact Hrun | exact Hd].
Defined.

Lemma run_enhanced_sampling_succeeds_witness :
  ∃ md df' w',
    run_enhanced_sampling rot_seeded rot_permutation normal_raw
      (Build_World 0%nat empty_out) = (Ok (df', md), w') ∧
    Z.of_nat (total_studies md) = 10 ∧
    md_audio_transcripts md = total_studies md.
Proof.
  destruct (run_enhanced_sampling_succeeds nat rot_seeded rot_permutation
              normal_raw normal_df (mk_gaze <$> normal_ids)
              (mk_gaze <$> normal_ids) (Build_World 0%nat empty_out))
    as (s & md & df' & _ & Hrun & _ & _ & _ & Htot & Haud & _).
  - apply rot_perm_ok.
  - reflexivity.
  - apply normal_ids_NoDup.
  - rewrite normal_validated. discriminate.
  - reflexivity.
  - reflexivity.
  - discriminate.
  - eexists md, df', _. split; [exact Hrun |]. split; [| exact Haud].
    rewrite Htot, normal_validated. reflexivity.
Defined.

Lemma run_enhanced_sampling_empty_leftovers_witness :
  ∃ s,
    df_rows s = [] ∧
    run_enhanced_sampling rot_seeded rot_permutation silent_raw
      (Build_World 0%nat stale_out)
    = (Raise ZeroDivisionError,
       Build_World 0%nat
         (with_boxes (selected_boxes silent_raw s) (with_master s stale_out)))
    ∧ (∀ boxes, bounding_boxes_csv silent_raw = Readable boxes →
                selected_boxes silent_raw s = Some []).
Proof.
  apply (run_enhanced_sampling_empty_leftovers nat rot_seeded rot_permutation
           silent_raw normal_df (mk_gaze <$> normal_ids)
           (mk_gaze <$> normal_ids) (Build_World 0%nat stale_out));
    try reflexivity.
  discriminate.
Defined.

Lemma run_enhanced_sampling_without_gaze_file_witness :
  ∃ s,
    df_rows s = [] ∧
    run_enhanced_sampling rot_seeded rot_permutation no_gaze_raw
      (Build_World 0%nat empty_out)
    = (Raise (UnboundLocalError "chunk_size"),
       Build_World 0%nat (with_master s empty_out)).
Proof.
  apply (run_enhanced_sampling_without_gaze_file nat rot_seeded
           rot_permutation no_gaze_raw normal_df
           (Build_World 0%nat empty_out)); [reflexivity.. | discriminate].
Defined.
